(** * The affine transform layer of eesen ([net/affine-trans-layer.h])

    A shallow embedding of [class AffineTransform : public TrainableLayer]
    and of the operations the layer asks of its collaborators, followed by
    the properties of the layer stated in its specification.

    Conventions of the embedding.
    - [BaseFloat] is idealised as a real number: the rounding of the
      arithmetic, overflow and NaN are outside the model.  The rounding of
      the text writer, which prints seven significant digits, is part of
      it.
    - An [int32] is an integer; arithmetic that leaves the range of 32 bits
      is undefined behaviour.
    - A [CuMatrix] is the list of its rows, a [CuVector] the list of its
      elements.  Kaldi matrices with no rows have no columns either, so the
      number of columns is the length of the first row.
    - A member function that mutates [*this] is a function from the state of
      the object before the call to its state after the call; the object is
      the last argument.
    - A call that may raise (KALDI_ERR, KALDI_ASSERT) or whose behaviour is
      undefined returns a [result].
    - The tensor operations are total: where the operands of a Kaldi call
      do not fit [*this], and Kaldi asserts, the model reads the elements
      that are missing as zero.  The statements below carry the shapes they
      need. *)

From Stdlib Require Import String Ascii ZArith Reals Lra Lia Bool Arith List.
Import ListNotations.

Set Implicit Arguments.
Open Scope R_scope.

(* ================================================================== *)
(** ** Results of fallible calls *)

Inductive fault : Type :=
| KaldiError         (* KALDI_ERR: a std::runtime_error is thrown *)
| AssertionFailed    (* KALDI_ASSERT on a false condition *)
| UndefinedBehaviour (* e.g. a member access through a null pointer *).

Inductive result (A : Type) : Type :=
| Ok (a : A)
| Fault (f : fault).

Arguments Ok {A} a.
Arguments Fault {A} f.

Definition bind {A B : Type} (r : result A) (k : A -> result B) : result B :=
  match r with
  | Ok a => k a
  | Fault f => Fault f
  end.

Notation "x <- r ;; k" := (bind r (fun x => k))
  (at level 61, r at next level, right associativity).
Notation "' p <- r ;; k" := (bind r (fun p => k))
  (at level 61, p pattern, r at next level, right associativity).

Definition KALDI_ASSERT (cond : bool) : result unit :=
  if cond then Ok tt else Fault AssertionFailed.

(* ================================================================== *)
(** ** Indexed traversals

    Every backend operation below overwrites the elements of [*this] in
    place and never changes its shape; [imap] is that traversal. *)

Section Indexed.
Variables A B : Type.

Fixpoint imap_from (k : nat) (f : nat -> A -> B) (l : list A) : list B :=
  match l with
  | [] => []
  | x :: t => f k x :: imap_from (S k) f t
  end.

Definition imap (f : nat -> A -> B) (l : list A) : list B := imap_from 0 f l.

End Indexed.

(* ================================================================== *)
(** ** The dense tensor backend ([gpucompute/]) *)

Definition BaseFloat : Type := R.
Definition CuVector : Type := list BaseFloat.
Definition CuMatrix : Type := list (list BaseFloat).

Inductive MatrixTransposeType : Type := kNoTrans | kTrans.

(** Sum of [f 0 .. f (n-1)]. *)
Definition sum_upto (n : nat) (f : nat -> R) : R :=
  fold_right (fun k acc => f k + acc) 0 (seq 0 n).

Module CuVectorBase.

Definition Dim (v : CuVector) : nat := length v.

(** [v(j)], zero where the vector has no such element. *)
Definition at_ (v : CuVector) (j : nat) : BaseFloat := nth j v 0.

(** Modelled from the spec: construction of a vector of [dim] elements
    with zero fill ([Resize] followed by [Set(0.0)], or the constructor's
    default [kSetZero]). *)
Definition Zero (dim : nat) : CuVector := repeat 0 dim.

(** Modelled from the spec: elementwise add-scaled,
    [*this += alpha * v]. *)
Definition AddVec (alpha : BaseFloat) (v : CuVector) (this : CuVector)
  : CuVector :=
  imap (fun j x => x + alpha * at_ v j) this.

(** Modelled from the spec: elementwise multiply-accumulate,
    [*this = beta * *this + alpha * v .* r]. *)
Definition AddVecVec (alpha : BaseFloat) (v r : CuVector) (beta : BaseFloat)
           (this : CuVector) : CuVector :=
  imap (fun j x => beta * x + alpha * (at_ v j * at_ r j)) this.

(** Modelled from the spec: elementwise clamp from below. *)
Definition ApplyFloor (floor_val : BaseFloat) (this : CuVector) : CuVector :=
  map (Rmax floor_val) this.

(** Modelled from the spec: elementwise clamp from above. *)
Definition ApplyCeiling (ceiling_val : BaseFloat) (this : CuVector)
  : CuVector :=
  map (Rmin ceiling_val) this.

(** Modelled from the spec: scalar scale, [*this *= value]. *)
Definition Scale (value : BaseFloat) (this : CuVector) : CuVector :=
  map (Rmult value) this.

End CuVectorBase.

Module CuMatrixBase.

Definition NumRows (m : CuMatrix) : nat := length m.

Definition NumCols (m : CuMatrix) : nat :=
  match m with
  | [] => 0%nat
  | row :: _ => length row
  end.

(** [m(i, j)], zero where the matrix has no such element. *)
Definition at_ (m : CuMatrix) (i j : nat) : BaseFloat :=
  nth j (nth i m []) 0.

(** [op(m)(i, j)] for the transposition flag of a BLAS style call. *)
Definition op_at (m : CuMatrix) (t : MatrixTransposeType) (i j : nat)
  : BaseFloat :=
  match t with
  | kNoTrans => at_ m i j
  | kTrans => at_ m j i
  end.

(** Number of columns of [op(m)]. *)
Definition op_cols (m : CuMatrix) (t : MatrixTransposeType) : nat :=
  match t with
  | kNoTrans => NumCols m
  | kTrans => NumRows m
  end.

Definition imap2 (f : nat -> nat -> BaseFloat -> BaseFloat) (this : CuMatrix)
  : CuMatrix :=
  imap (fun i row => imap (f i) row) this.

(** Modelled from the spec: construction of a [rows] x [cols] matrix with
    zero fill ([Resize] followed by [Set(0.0)], or the constructor's
    default [kSetZero]). *)
Definition Zero (rows cols : nat) : CuMatrix := repeat (repeat 0 cols) rows.

(** Modelled from the spec: transpose-aware matrix multiply and
    accumulate, [*this = beta * *this + alpha * op(A) * op(B)]. *)
Definition AddMatMat (alpha : BaseFloat)
           (A : CuMatrix) (transA : MatrixTransposeType)
           (B : CuMatrix) (transB : MatrixTransposeType)
           (beta : BaseFloat) (this : CuMatrix) : CuMatrix :=
  imap2 (fun i j x =>
           beta * x
           + alpha * sum_upto (op_cols A transA)
                       (fun k => op_at A transA i k * op_at B transB k j))
        this.

(** Modelled from the spec: row-broadcast add,
    [*this = beta * *this + alpha * row] on every row. *)
Definition AddVecToRows (alpha : BaseFloat) (row : CuVector)
           (beta : BaseFloat) (this : CuMatrix) : CuMatrix :=
  imap2 (fun _ j x => beta * x + alpha * CuVectorBase.at_ row j) this.

(** Modelled from the spec: elementwise add-scaled,
    [*this += alpha * A]. *)
Definition AddMat (alpha : BaseFloat) (A : CuMatrix) (this : CuMatrix)
  : CuMatrix :=
  imap2 (fun i j x => x + alpha * at_ A i j) this.

(** Modelled from the spec: elementwise multiply-accumulate,
    [*this = beta * *this + alpha * A .* B]. *)
Definition AddMatMatElements (alpha : BaseFloat) (A B : CuMatrix)
           (beta : BaseFloat) (this : CuMatrix) : CuMatrix :=
  imap2 (fun i j x => beta * x + alpha * (at_ A i j * at_ B i j)) this.

(** Modelled from the spec: elementwise clamp from below. *)
Definition ApplyFloor (floor_val : BaseFloat) (this : CuMatrix) : CuMatrix :=
  map (map (Rmax floor_val)) this.

(** Modelled from the spec: elementwise clamp from above. *)
Definition ApplyCeiling (ceiling_val : BaseFloat) (this : CuMatrix)
  : CuMatrix :=
  map (map (Rmin ceiling_val)) this.

(** Modelled from the spec: scalar scale, [*this *= value]. *)
Definition Scale (value : BaseFloat) (this : CuMatrix) : CuMatrix :=
  map (map (Rmult value)) this.

End CuMatrixBase.

(** Modelled from the spec: row-sum reduction into a vector,
    [*this = beta * *this + alpha * (sum of the rows of M)]
    ([CuVectorBase::AddRowSumMat]). *)
Definition AddRowSumMat (alpha : BaseFloat) (M : CuMatrix) (beta : BaseFloat)
           (this : CuVector) : CuVector :=
  imap (fun j x =>
          beta * x
          + alpha * sum_upto (CuMatrixBase.NumRows M)
                      (fun i => CuMatrixBase.at_ M i j))
       this.

(** Modelled from the spec: uniform-random fill of a [rows] x [cols] matrix
    in [[-range, +range]].  The random source is outside the model: [draws]
    holds its outcomes, each in [[-1, 1]]. *)
Definition InitRandUniformMat (range : BaseFloat) (draws : CuMatrix)
           (rows cols : nat) : CuMatrix :=
  CuMatrixBase.imap2 (fun i j _ => range * CuMatrixBase.at_ draws i j)
                     (CuMatrixBase.Zero rows cols).

(** Modelled from the spec: uniform-random fill of a vector of [dim]
    elements in [[-range, +range]], from the outcomes [draws]. *)
Definition InitRandUniformVec (range : BaseFloat) (draws : CuVector)
           (dim : nat) : CuVector :=
  imap (fun j _ => range * CuVectorBase.at_ draws j) (CuVectorBase.Zero dim).

(* ================================================================== *)
(** ** Token streams ([base/io-funcs.h])

    A stream is the sequence of the items written to it: tokens, basic
    values, matrices and vectors.  The [binary] flag of every call is
    threaded as in the source, and a stream is read in the mode it was
    written in.  In binary mode a value is written as its bytes and read
    back as it was.  In text mode a value is written as a decimal numeral
    of [text_precision] significant digits and the reader takes the value
    of the numeral: the item of the stream holds that value. *)

Inductive item : Type :=
| Token (s : string)
| Basic (x : BaseFloat)
| MatrixItem (m : CuMatrix)
| VectorItem (v : CuVector).

Definition stream : Type := list item.

(** What [Peek] sees: the end of the stream, the first character of a
    token, or the first byte of a number, a matrix or a vector (a digit or
    sign, ['['], or a binary header byte; never ['<']). *)
Inductive peeked : Type :=
| PeekEOF
| PeekChar (c : ascii)
| PeekData.

(** Modelled from the spec: [Peek] returns the next character of the stream
    without consuming it. *)
Definition Peek (is_ : stream) (binary : bool) : peeked :=
  match is_ with
  | [] => PeekEOF
  | Token (String c _) :: _ => PeekChar c
  | Token EmptyString :: _ => PeekData (* no token is empty *)
  | Basic _ :: _ => PeekData
  | MatrixItem _ :: _ => PeekData
  | VectorItem _ :: _ => PeekData
  end.

(** The test ['<' == Peek(is, binary)]. *)
Definition is_open_angle (p : peeked) : bool :=
  match p with
  | PeekChar c => Ascii.eqb c "<"%char
  | _ => false
  end.

(** Modelled from the spec: [ExpectToken] consumes the next token and
    raises unless it is the expected one. *)
Definition ExpectToken (is_ : stream) (binary : bool) (token : string)
  : result stream :=
  match is_ with
  | Token s :: rest =>
      if String.eqb s token then Ok rest else Fault KaldiError
  | _ => Fault KaldiError
  end.

(** Modelled from the spec: [ReadBasicType] consumes the next value. *)
Definition ReadBasicType (is_ : stream) (binary : bool)
  : result (BaseFloat * stream) :=
  match is_ with
  | Basic x :: rest => Ok (x, rest)
  | _ => Fault KaldiError
  end.

(** Modelled from the spec: [CuMatrix::Read] replaces the matrix, shape and
    contents, by the next item of the stream. *)
Definition ReadMatrix (is_ : stream) (binary : bool)
  : result (CuMatrix * stream) :=
  match is_ with
  | MatrixItem m :: rest => Ok (m, rest)
  | _ => Fault KaldiError
  end.

(** Modelled from the spec: [CuVector::Read]. *)
Definition ReadVector (is_ : stream) (binary : bool)
  : result (CuVector * stream) :=
  match is_ with
  | VectorItem v :: rest => Ok (v, rest)
  | _ => Fault KaldiError
  end.

(** Modelled from the spec: the number of significant digits of a numeral
    in a text stream ([InitKaldiOutputStream] sets the precision of the
    stream to 7). *)
Definition text_precision : Z := 7%Z.

(** The decade of a magnitude [a]: the [k] with [10^k <= a < 10^(k+1)],
    searched downwards from [k0]. *)
Fixpoint decade_from (fuel : nat) (k0 : Z) (a : R) : option Z :=
  match fuel with
  | O => None
  | S fuel =>
      if Rle_dec (powerRZ 10 k0) a then Some k0
      else decade_from fuel (k0 - 1) a
  end.

(** The decades of the magnitudes a [float] has lie between [10^-45] and
    [10^38]; zero has none. *)
Definition decade (a : R) : option Z :=
  if Rlt_dec a (powerRZ 10 39) then decade_from 90 38 a else None.

(** The integer nearest to [r], halves upwards. *)
Definition nearest (r : R) : Z := (up (r + / 2) - 1)%Z.

(** Modelled from the spec: the value of the numeral the text writer
    prints for [x]: [x] rounded to [text_precision] significant digits.
    Zero is printed as zero. *)
Definition text_image (x : BaseFloat) : BaseFloat :=
  match decade (Rabs x) with
  | Some k =>
      let ulp := powerRZ 10 (k + 1 - text_precision) in
      (if Rle_dec 0 x then 1 else - 1) * (IZR (nearest (Rabs x / ulp)) * ulp)
  | None => x
  end.

(** What a reader finds where [x] was written. *)
Definition written (binary : bool) (x : BaseFloat) : BaseFloat :=
  if binary then x else text_image x.

(** Modelled from the spec: the writers append one item to the stream. *)
Definition WriteToken (os : stream) (binary : bool) (token : string) : stream :=
  os ++ [Token token].

Definition WriteBasicType (os : stream) (binary : bool) (x : BaseFloat)
  : stream :=
  os ++ [Basic (written binary x)].

Definition WriteMatrix (os : stream) (binary : bool) (m : CuMatrix) : stream :=
  os ++ [MatrixItem (map (map (written binary)) m)].

Definition WriteVector (os : stream) (binary : bool) (v : CuVector) : stream :=
  os ++ [VectorItem (map (written binary) v)].

(* ================================================================== *)
(** ** The layer state *)

(** Modelled from the spec: [NetTrainOptions] of [net/trainable-layer.h],
    the external hyperparameter set that supplies the base learning rate
    and the momentum. *)
Record NetTrainOptions : Type := mkNetTrainOptions {
  learn_rate : BaseFloat;
  momentum : BaseFloat
}.

(** Modelled from the spec: the rules of [Update], sgd, adagrad and
    rmsprop ([UpdateRule] of [net/trainable-layer.h]). *)
Inductive UpdateRule : Type := sgd_update | adagrad_update | rmsprop_update.

(** The members of [AffineTransform], those of its base classes first.
    [ada_allocations] is a ghost member: it counts the calls of
    [InitAdaBuffers] on this object, which is how the properties below speak
    of the adaptive buffers having been allocated. *)
Record AffineTransform : Type := mkAffineTransform {
  input_dim_ : nat;
  output_dim_ : nat;
  opts_ : NetTrainOptions;
  linearity_ : CuMatrix;
  bias_ : CuVector;
  linearity_corr_ : CuMatrix;
  bias_corr_ : CuVector;
  linearity_corr_accu : CuMatrix;
  bias_corr_accu : CuVector;
  linearity_corr_accu_scale : CuMatrix;
  bias_corr_accu_scale : CuVector;
  learn_rate_coef_ : BaseFloat;
  max_grad_ : BaseFloat;
  adaBuffersInitialized : bool;
  ada_allocations : nat
}.

(** Assignments to single members. *)
Definition set_linearity_ (x : CuMatrix) (l : AffineTransform) :=
  mkAffineTransform (input_dim_ l) (output_dim_ l) (opts_ l)
    x (bias_ l) (linearity_corr_ l) (bias_corr_ l)
    (linearity_corr_accu l) (bias_corr_accu l)
    (linearity_corr_accu_scale l) (bias_corr_accu_scale l)
    (learn_rate_coef_ l) (max_grad_ l) (adaBuffersInitialized l)
    (ada_allocations l).

Definition set_bias_ (x : CuVector) (l : AffineTransform) :=
  mkAffineTransform (input_dim_ l) (output_dim_ l) (opts_ l)
    (linearity_ l) x (linearity_corr_ l) (bias_corr_ l)
    (linearity_corr_accu l) (bias_corr_accu l)
    (linearity_corr_accu_scale l) (bias_corr_accu_scale l)
    (learn_rate_coef_ l) (max_grad_ l) (adaBuffersInitialized l)
    (ada_allocations l).

Definition set_linearity_corr_ (x : CuMatrix) (l : AffineTransform) :=
  mkAffineTransform (input_dim_ l) (output_dim_ l) (opts_ l)
    (linearity_ l) (bias_ l) x (bias_corr_ l)
    (linearity_corr_accu l) (bias_corr_accu l)
    (linearity_corr_accu_scale l) (bias_corr_accu_scale l)
    (learn_rate_coef_ l) (max_grad_ l) (adaBuffersInitialized l)
    (ada_allocations l).

Definition set_bias_corr_ (x : CuVector) (l : AffineTransform) :=
  mkAffineTransform (input_dim_ l) (output_dim_ l) (opts_ l)
    (linearity_ l) (bias_ l) (linearity_corr_ l) x
    (linearity_corr_accu l) (bias_corr_accu l)
    (linearity_corr_accu_scale l) (bias_corr_accu_scale l)
    (learn_rate_coef_ l) (max_grad_ l) (adaBuffersInitialized l)
    (ada_allocations l).

Definition set_linearity_corr_accu (x : CuMatrix) (l : AffineTransform) :=
  mkAffineTransform (input_dim_ l) (output_dim_ l) (opts_ l)
    (linearity_ l) (bias_ l) (linearity_corr_ l) (bias_corr_ l)
    x (bias_corr_accu l)
    (linearity_corr_accu_scale l) (bias_corr_accu_scale l)
    (learn_rate_coef_ l) (max_grad_ l) (adaBuffersInitialized l)
    (ada_allocations l).

Definition set_bias_corr_accu (x : CuVector) (l : AffineTransform) :=
  mkAffineTransform (input_dim_ l) (output_dim_ l) (opts_ l)
    (linearity_ l) (bias_ l) (linearity_corr_ l) (bias_corr_ l)
    (linearity_corr_accu l) x
    (linearity_corr_accu_scale l) (bias_corr_accu_scale l)
    (learn_rate_coef_ l) (max_grad_ l) (adaBuffersInitialized l)
    (ada_allocations l).

Definition set_linearity_corr_accu_scale (x : CuMatrix) (l : AffineTransform) :=
  mkAffineTransform (input_dim_ l) (output_dim_ l) (opts_ l)
    (linearity_ l) (bias_ l) (linearity_corr_ l) (bias_corr_ l)
    (linearity_corr_accu l) (bias_corr_accu l)
    x (bias_corr_accu_scale l)
    (learn_rate_coef_ l) (max_grad_ l) (adaBuffersInitialized l)
    (ada_allocations l).

Definition set_bias_corr_accu_scale (x : CuVector) (l : AffineTransform) :=
  mkAffineTransform (input_dim_ l) (output_dim_ l) (opts_ l)
    (linearity_ l) (bias_ l) (linearity_corr_ l) (bias_corr_ l)
    (linearity_corr_accu l) (bias_corr_accu l)
    (linearity_corr_accu_scale l) x
    (learn_rate_coef_ l) (max_grad_ l) (adaBuffersInitialized l)
    (ada_allocations l).

Definition set_learn_rate_coef_ (x : BaseFloat) (l : AffineTransform) :=
  mkAffineTransform (input_dim_ l) (output_dim_ l) (opts_ l)
    (linearity_ l) (bias_ l) (linearity_corr_ l) (bias_corr_ l)
    (linearity_corr_accu l) (bias_corr_accu l)
    (linearity_corr_accu_scale l) (bias_corr_accu_scale l)
    x (max_grad_ l) (adaBuffersInitialized l)
    (ada_allocations l).

Definition set_max_grad_ (x : BaseFloat) (l : AffineTransform) :=
  mkAffineTransform (input_dim_ l) (output_dim_ l) (opts_ l)
    (linearity_ l) (bias_ l) (linearity_corr_ l) (bias_corr_ l)
    (linearity_corr_accu l) (bias_corr_accu l)
    (linearity_corr_accu_scale l) (bias_corr_accu_scale l)
    (learn_rate_coef_ l) x (adaBuffersInitialized l)
    (ada_allocations l).

Definition set_adaBuffersInitialized (x : bool) (l : AffineTransform) :=
  mkAffineTransform (input_dim_ l) (output_dim_ l) (opts_ l)
    (linearity_ l) (bias_ l) (linearity_corr_ l) (bias_corr_ l)
    (linearity_corr_accu l) (bias_corr_accu l)
    (linearity_corr_accu_scale l) (bias_corr_accu_scale l)
    (learn_rate_coef_ l) (max_grad_ l) x
    (ada_allocations l).

Definition count_allocation (l : AffineTransform) :=
  mkAffineTransform (input_dim_ l) (output_dim_ l) (opts_ l)
    (linearity_ l) (bias_ l) (linearity_corr_ l) (bias_corr_ l)
    (linearity_corr_accu l) (bias_corr_accu l)
    (linearity_corr_accu_scale l) (bias_corr_accu_scale l)
    (learn_rate_coef_ l) (max_grad_ l) (adaBuffersInitialized l)
    (S (ada_allocations l)).

(* ================================================================== *)
(** ** Accumulator updates ([net/utils-functions.h]) *)

Section Layer.

(** The constants of the adaptive rules: the epsilon added under the square
    root and the decay of RMSProp.  The layer fixes neither. *)
Variables (epsilon rmsprop_decay : BaseFloat).

(** Modelled from the spec: AdaGrad accumulates [accu += corr^2].  The
    third argument of the source call is scratch space, overwritten by
    [AdagradScaleCompute] before it is read. *)
Definition AdagradAccuUpdate (accu accu_update : CuMatrix) : CuMatrix :=
  CuMatrixBase.imap2
    (fun i j a =>
       a + CuMatrixBase.at_ accu_update i j * CuMatrixBase.at_ accu_update i j)
    accu.

(** Modelled from the spec: the same on vectors. *)
Definition AdagradAccuUpdateVec (accu accu_update : CuVector) : CuVector :=
  imap (fun j a =>
          a + CuVectorBase.at_ accu_update j * CuVectorBase.at_ accu_update j)
       accu.

(** Modelled from the spec: RMSProp applies exponential decay,
    [accu = decay * accu + (1 - decay) * corr^2]. *)
Definition RMSPropAccuUpdate (accu accu_update : CuMatrix) : CuMatrix :=
  CuMatrixBase.imap2
    (fun i j a =>
       rmsprop_decay * a
       + (1 - rmsprop_decay)
         * (CuMatrixBase.at_ accu_update i j * CuMatrixBase.at_ accu_update i j))
    accu.

(** Modelled from the spec: the same on vectors. *)
Definition RMSPropAccuUpdateVec (accu accu_update : CuVector) : CuVector :=
  imap (fun j a =>
          rmsprop_decay * a
          + (1 - rmsprop_decay)
            * (CuVectorBase.at_ accu_update j * CuVectorBase.at_ accu_update j))
       accu.

(** Modelled from the spec: scale = elementwise [1 / sqrt(accu + epsilon)]. *)
Definition AdagradScaleCompute (accu_scale accu : CuMatrix) : CuMatrix :=
  CuMatrixBase.imap2
    (fun i j _ => 1 / sqrt (CuMatrixBase.at_ accu i j + epsilon))
    accu_scale.

(** Modelled from the spec: the same on vectors. *)
Definition AdagradScaleComputeVec (accu_scale accu : CuVector) : CuVector :=
  imap (fun j _ => 1 / sqrt (CuVectorBase.at_ accu j + epsilon)) accu_scale.

(* ================================================================== *)
(** ** The member functions of [AffineTransform] *)

(** [AffineTransform(dim_in, dim_out)].  [opts_] is initialised by the base
    class and set by the trainer; it is an argument here. *)
Definition AffineTransform_ctor (dim_in dim_out : nat) (opts : NetTrainOptions)
  : AffineTransform :=
  {| input_dim_ := dim_in;
     output_dim_ := dim_out;
     opts_ := opts;
     linearity_ := CuMatrixBase.Zero dim_out dim_in;
     bias_ := CuVectorBase.Zero dim_out;
     linearity_corr_ := CuMatrixBase.Zero dim_out dim_in;
     bias_corr_ := CuVectorBase.Zero dim_out;
     linearity_corr_accu := [];
     bias_corr_accu := [];
     linearity_corr_accu_scale := [];
     bias_corr_accu_scale := [];
     learn_rate_coef_ := 1;
     max_grad_ := 0;
     adaBuffersInitialized := false;
     ada_allocations := 0 |}.

(** The options [InitData] parses. *)
Record InitOptions : Type := mkInitOptions {
  opt_param_range : BaseFloat;
  opt_learn_rate_coef : BaseFloat;
  opt_max_grad : BaseFloat
}.

(** One pass of the body of the loop of [InitData]: the value read goes
    into the option the token names, and an unknown token raises. *)
Definition InitData_option (token : string) (x : BaseFloat) (o : InitOptions)
  : result InitOptions :=
  if String.eqb token "<ParamRange>" then
    Ok (mkInitOptions x (opt_learn_rate_coef o) (opt_max_grad o))
  else if String.eqb token "<LearnRateCoef>" then
    Ok (mkInitOptions (opt_param_range o) x (opt_max_grad o))
  else if String.eqb token "<MaxGrad>" then
    Ok (mkInitOptions (opt_param_range o) (opt_learn_rate_coef o) x)
  else Fault KaldiError.

(** The loop [while (!is.eof())] of [InitData]: [ReadToken], then
    [ReadBasicType] into the option the token names, then
    [is >> std::ws].  A stream reports its end only after a read has run
    into it, so the test lets the body run on a stream nothing was read
    from yet, also an empty one; after a value, [is >> std::ws] runs into
    the end when nothing follows, and the loop stops.  Reading a token
    where there is none, or a value where there is none, raises, and so
    does an unknown token. *)
Fixpoint InitData_parse (is_ : stream) (o : InitOptions) : result InitOptions :=
  match is_ with
  | Token token :: Basic x :: rest =>
      o' <- InitData_option token x o ;;
      match rest with
      | [] => Ok o'
      | _ :: _ => InitData_parse rest o'
      end
  | _ => Fault KaldiError
  end.

Definition InitData (is_ : stream) (draws_linearity : CuMatrix)
           (draws_bias : CuVector) (l : AffineTransform)
  : result AffineTransform :=
  o <- InitData_parse is_ (mkInitOptions (2 / 100) 1 0) ;;
  let l := set_linearity_
             (InitRandUniformMat (opt_param_range o) draws_linearity
                                 (output_dim_ l) (input_dim_ l)) l in
  let l := set_bias_
             (InitRandUniformVec (opt_param_range o) draws_bias
                                 (output_dim_ l)) l in
  let l := set_learn_rate_coef_ (opt_learn_rate_coef o) l in
  let l := set_max_grad_ (opt_max_grad o) l in
  Ok l.

Definition InitAdaBuffers (l : AffineTransform) : AffineTransform :=
  let l := count_allocation l in
  let l := set_linearity_corr_accu
             (CuMatrixBase.Zero (output_dim_ l) (input_dim_ l)) l in
  let l := set_bias_corr_accu (CuVectorBase.Zero (output_dim_ l)) l in
  let l := set_linearity_corr_accu_scale
             (CuMatrixBase.Zero (output_dim_ l) (input_dim_ l)) l in
  let l := set_bias_corr_accu_scale (CuVectorBase.Zero (output_dim_ l)) l in
  set_adaBuffersInitialized true l.

(** [ReadData] returns the layer and what is left of the stream. *)
Definition ReadData (is_ : stream) (binary : bool) (l : AffineTransform)
  : result (AffineTransform * stream) :=
  let l := set_adaBuffersInitialized false l in
  (* optional learning-rate coefs *)
  '(l, is_) <-
    (if is_open_angle (Peek is_ binary) then
       is_ <- ExpectToken is_ binary "<LearnRateCoef>" ;;
       '(x, is_) <- ReadBasicType is_ binary ;;
       Ok (set_learn_rate_coef_ x l, is_)
     else Ok (l, is_)) ;;
  '(l, is_) <-
    (if is_open_angle (Peek is_ binary) then
       is_ <- ExpectToken is_ binary "<MaxGrad>" ;;
       '(x, is_) <- ReadBasicType is_ binary ;;
       Ok (set_max_grad_ x l, is_)
     else Ok (l, is_)) ;;
  (* optionally read in accumulators for AdaGrad and RMSProp *)
  '(l, is_) <-
    (if is_open_angle (Peek is_ binary) then
       is_ <- ExpectToken is_ binary "<AffineAccus>" ;;
       let l := InitAdaBuffers l in
       '(m, is_) <- ReadMatrix is_ binary ;;
       let l := set_linearity_corr_accu m l in
       '(v, is_) <- ReadVector is_ binary ;;
       let l := set_bias_corr_accu v l in
       Ok (l, is_)
     else Ok (l, is_)) ;;
  (* weights *)
  '(m, is_) <- ReadMatrix is_ binary ;;
  let l := set_linearity_ m l in
  '(v, is_) <- ReadVector is_ binary ;;
  let l := set_bias_ v l in
  _ <- KALDI_ASSERT (CuMatrixBase.NumRows (linearity_ l) =? output_dim_ l)%nat ;;
  _ <- KALDI_ASSERT (CuMatrixBase.NumCols (linearity_ l) =? input_dim_ l)%nat ;;
  _ <- KALDI_ASSERT (CuVectorBase.Dim (bias_ l) =? output_dim_ l)%nat ;;
  Ok (l, is_).

Definition WriteData (os : stream) (binary : bool) (l : AffineTransform)
  : stream :=
  let os := WriteToken os binary "<LearnRateCoef>" in
  let os := WriteBasicType os binary (learn_rate_coef_ l) in
  let os := WriteToken os binary "<MaxGrad>" in
  let os := WriteBasicType os binary (max_grad_ l) in
  (* write out optional accumulators *)
  let os :=
    if adaBuffersInitialized l then
      let os := WriteToken os binary "<AffineAccus>" in
      let os := WriteMatrix os binary (linearity_corr_accu l) in
      WriteVector os binary (bias_corr_accu l)
    else os in
  (* weights *)
  let os := WriteMatrix os binary (linearity_ l) in
  WriteVector os binary (bias_ l).

(** [PropagateFnc] and [BackpropagateFnc] are not [const]: they return the
    layer next to the buffer they fill. *)
Definition PropagateFnc (in_ : CuMatrix) (out : CuMatrix) (l : AffineTransform)
  : AffineTransform * CuMatrix :=
  (* precopy bias *)
  let out := CuMatrixBase.AddVecToRows 1 (bias_ l) 0 out in
  (* multiply by weights^t *)
  let out := CuMatrixBase.AddMatMat 1 in_ kNoTrans (linearity_ l) kTrans 1 out in
  (l, out).

Definition BackpropagateFnc (in_ out out_diff : CuMatrix) (in_diff : CuMatrix)
           (l : AffineTransform) : AffineTransform * CuMatrix :=
  (* multiply error derivative by weights *)
  let in_diff :=
    CuMatrixBase.AddMatMat 1 out_diff kNoTrans (linearity_ l) kNoTrans 0
                           in_diff in
  (l, in_diff).

Definition UpdateRule_eqb (a b : UpdateRule) : bool :=
  match a, b with
  | sgd_update, sgd_update => true
  | adagrad_update, adagrad_update => true
  | rmsprop_update, rmsprop_update => true
  | _, _ => false
  end.

Definition Update (input diff : CuMatrix) (rule : UpdateRule)
           (l : AffineTransform) : AffineTransform :=
  (* we use following hyperparameters from the option class *)
  let lr := learn_rate (opts_ l) in
  let mmt := momentum (opts_ l) in
  (* compute gradient (incl. momentum) *)
  let l := set_linearity_corr_
             (CuMatrixBase.AddMatMat 1 diff kTrans input kNoTrans mmt
                                     (linearity_corr_ l)) l in
  let l := set_bias_corr_ (AddRowSumMat 1 diff mmt (bias_corr_ l)) l in
  (* clip gradients *)
  let l :=
    if Rlt_dec 0 (max_grad_ l) then
      let l := set_linearity_corr_
                 (CuMatrixBase.ApplyCeiling (max_grad_ l)
                    (CuMatrixBase.ApplyFloor (- max_grad_ l)
                       (linearity_corr_ l))) l in
      set_bias_corr_
        (CuVectorBase.ApplyCeiling (max_grad_ l)
           (CuVectorBase.ApplyFloor (- max_grad_ l) (bias_corr_ l))) l
    else l in
  if UpdateRule_eqb rule sgd_update then
    (* update *)
    let lr := lr * learn_rate_coef_ l in
    let l := set_linearity_
               (CuMatrixBase.AddMat (- lr) (linearity_corr_ l) (linearity_ l))
               l in
    set_bias_ (CuVectorBase.AddVec (- lr) (bias_corr_ l) (bias_ l)) l
  else if UpdateRule_eqb rule adagrad_update
          || UpdateRule_eqb rule rmsprop_update then
    let l :=
      if negb (adaBuffersInitialized l) then
        set_adaBuffersInitialized true (InitAdaBuffers l)
      else l in
    (* update the accumulators *)
    let l :=
      if UpdateRule_eqb rule adagrad_update then
        let l := set_linearity_corr_accu
                   (AdagradAccuUpdate (linearity_corr_accu l)
                                      (linearity_corr_ l)) l in
        set_bias_corr_accu
          (AdagradAccuUpdateVec (bias_corr_accu l) (bias_corr_ l)) l
      else
        let l := set_linearity_corr_accu
                   (RMSPropAccuUpdate (linearity_corr_accu l)
                                      (linearity_corr_ l)) l in
        set_bias_corr_accu
          (RMSPropAccuUpdateVec (bias_corr_accu l) (bias_corr_ l)) l in
    (* calculate 1.0 / sqrt(accu + epsilon) *)
    let l := set_linearity_corr_accu_scale
               (AdagradScaleCompute (linearity_corr_accu_scale l)
                                    (linearity_corr_accu l)) l in
    let l := set_bias_corr_accu_scale
               (AdagradScaleComputeVec (bias_corr_accu_scale l)
                                       (bias_corr_accu l)) l in
    (* update the parameters *)
    let l := set_linearity_
               (CuMatrixBase.AddMatMatElements
                  (- lr) (linearity_corr_accu_scale l) (linearity_corr_ l) 1
                  (linearity_ l)) l in
    set_bias_
      (CuVectorBase.AddVecVec (- lr) (bias_corr_accu_scale l) (bias_corr_ l) 1
                              (bias_ l)) l
  else l.

Definition Scale (scale : BaseFloat) (l : AffineTransform) : AffineTransform :=
  let l := set_linearity_ (CuMatrixBase.Scale scale (linearity_ l)) l in
  set_bias_ (CuVectorBase.Scale scale (bias_ l)) l.

(** Modelled from the spec: the layers the argument of [Add] ranges over
    ([TrainableLayer] of [net/trainable-layer.h] and its subclasses), an
    affine transform or a layer of another class. *)
Inductive TrainableLayer : Type :=
| AffineTransformLayer (a : AffineTransform)
| OtherTrainableLayer.

(** [dynamic_cast<const AffineTransform*>(&layer_other)]: the null pointer
    for a layer of another class. *)
Definition dynamic_cast_AffineTransform (layer_other : TrainableLayer)
  : option AffineTransform :=
  match layer_other with
  | AffineTransformLayer a => Some a
  | OtherTrainableLayer => None
  end.

(** [Add] reads [other->linearity_] and [other->bias_] without testing the
    pointer: through the null pointer the behaviour is undefined.  Each
    statement reads of [other] only the member it updates in [*this], so
    [other] aliasing [*this] reads the state before the call. *)
Definition Add (scale : BaseFloat) (layer_other : TrainableLayer)
           (l : AffineTransform) : result AffineTransform :=
  match dynamic_cast_AffineTransform layer_other with
  | None => Fault UndefinedBehaviour
  | Some other =>
      let l := set_linearity_
                 (CuMatrixBase.AddMat scale (linearity_ other) (linearity_ l))
                 l in
      let l := set_bias_ (CuVectorBase.AddVec scale (bias_ other) (bias_ l)) l in
      Ok l
  end.

(* ================================================================== *)
(** ** Histories of a layer *)

Inductive operation : Type :=
| OpInitData (is_ : stream) (draws_linearity : CuMatrix) (draws_bias : CuVector)
| OpReadData (is_ : stream) (binary : bool)
| OpUpdate (input diff : CuMatrix) (rule : UpdateRule)
| OpScale (scale : BaseFloat)
| OpAdd (scale : BaseFloat) (layer_other : TrainableLayer).

Definition apply_operation (o : operation) (l : AffineTransform)
  : result AffineTransform :=
  match o with
  | OpInitData is_ dl db => InitData is_ dl db l
  | OpReadData is_ binary => '(l, _) <- ReadData is_ binary l ;; Ok l
  | OpUpdate input diff rule => Ok (Update input diff rule l)
  | OpScale scale => Ok (Scale scale l)
  | OpAdd scale other => Add scale other l
  end.

(** The states a layer reaches from its construction by calls that
    return. *)
Inductive reachable : AffineTransform -> Prop :=
| reachable_ctor dim_in dim_out opts :
    reachable (AffineTransform_ctor dim_in dim_out opts)
| reachable_step l o l' :
    reachable l -> apply_operation o l = Ok l' -> reachable l'.

Definition is_ReadData (o : operation) : bool :=
  match o with
  | OpReadData _ _ => true
  | _ => false
  end.

(** The states a layer reaches, each with the number of allocations the
    layer had made when its most recent [ReadData] call began, or 0 when
    [ReadData] has not been called on it. *)
Inductive reachable_since : nat -> AffineTransform -> Prop :=
| reachable_since_ctor dim_in dim_out opts :
    reachable_since 0 (AffineTransform_ctor dim_in dim_out opts)
| reachable_since_ReadData base l is_ binary l' :
    reachable_since base l ->
    apply_operation (OpReadData is_ binary) l = Ok l' ->
    reachable_since (ada_allocations l) l'
| reachable_since_step base l o l' :
    reachable_since base l ->
    is_ReadData o = false ->
    apply_operation o l = Ok l' ->
    reachable_since base l'.

(** A sequence of [Update] calls. *)
Definition UpdateCall : Type := (CuMatrix * CuMatrix * UpdateRule)%type.

Definition Updates (calls : list UpdateCall) (l : AffineTransform)
  : AffineTransform :=
  fold_left (fun l '(input, diff, rule) => Update input diff rule l) calls l.

End Layer.

(* ================================================================== *)
(** ** Shapes and the mathematical reading of the tensor operations *)

(** [m] has [rows] rows of [cols] elements each. *)
Definition has_shape (m : CuMatrix) (rows cols : nat) : Prop :=
  length m = rows /\ Forall (fun row => length row = cols) m.

(** Row [j] of [x * W^T + b] for one input row [x]:
    [sum_k x(k) * W(j, k) + b(j)], for the [rows W] outputs. *)
Definition affine_row (W : CuMatrix) (b : CuVector) (x : list BaseFloat)
  : list BaseFloat :=
  map (fun j =>
         sum_upto (length x) (fun k => nth k x 0 * CuMatrixBase.at_ W j k)
         + CuVectorBase.at_ b j)
      (seq 0 (CuMatrixBase.NumRows W)).

(** Row of [g * W] for one gradient row [g]: [sum_j g(j) * W(j, k)], for
    the [cols] inputs. *)
Definition grad_row (W : CuMatrix) (cols : nat) (g : list BaseFloat)
  : list BaseFloat :=
  map (fun k => sum_upto (length g) (fun j => nth j g 0 * CuMatrixBase.at_ W j k))
      (seq 0 cols).

(** Every element of the matrix, or of the vector, lies in [[lo, hi]]. *)
Definition vec_within (lo hi : BaseFloat) (v : CuVector) : Prop :=
  Forall (fun x => lo <= x <= hi) v.

Definition mat_within (lo hi : BaseFloat) (m : CuMatrix) : Prop :=
  Forall (vec_within lo hi) m.

(* ================================================================== *)
(** ** The steps of [Update], named for the statements below *)

(** Step 1: the gradient blended with momentum,
    [momentum * corr + diff^T * input] and [momentum * corr + colsum diff]. *)
Definition blended_linearity_corr (input diff : CuMatrix) (l : AffineTransform)
  : CuMatrix :=
  CuMatrixBase.AddMatMat 1 diff kTrans input kNoTrans (momentum (opts_ l))
                         (linearity_corr_ l).

Definition blended_bias_corr (diff : CuMatrix) (l : AffineTransform)
  : CuVector :=
  AddRowSumMat 1 diff (momentum (opts_ l)) (bias_corr_ l).

(** Step 2: the gradient buffers after the clipping step. *)
Definition clipped_linearity_corr (input diff : CuMatrix) (l : AffineTransform)
  : CuMatrix :=
  if Rlt_dec 0 (max_grad_ l) then
    CuMatrixBase.ApplyCeiling (max_grad_ l)
      (CuMatrixBase.ApplyFloor (- max_grad_ l)
         (blended_linearity_corr input diff l))
  else blended_linearity_corr input diff l.

Definition clipped_bias_corr (diff : CuMatrix) (l : AffineTransform)
  : CuVector :=
  if Rlt_dec 0 (max_grad_ l) then
    CuVectorBase.ApplyCeiling (max_grad_ l)
      (CuVectorBase.ApplyFloor (- max_grad_ l) (blended_bias_corr diff l))
  else blended_bias_corr diff l.

(** The rules that keep accumulators. *)
Definition is_adaptive (rule : UpdateRule) : bool :=
  match rule with
  | sgd_update => false
  | adagrad_update | rmsprop_update => true
  end.

(** Step 3, adaptive rules: the accumulator update of the rule. *)
Definition AccuUpdate (rmsprop_decay : BaseFloat) (rule : UpdateRule)
           (accu accu_update : CuMatrix) : CuMatrix :=
  if UpdateRule_eqb rule adagrad_update
  then AdagradAccuUpdate accu accu_update
  else RMSPropAccuUpdate rmsprop_decay accu accu_update.

Definition AccuUpdateVec (rmsprop_decay : BaseFloat) (rule : UpdateRule)
           (accu accu_update : CuVector) : CuVector :=
  if UpdateRule_eqb rule adagrad_update
  then AdagradAccuUpdateVec accu accu_update
  else RMSPropAccuUpdateVec rmsprop_decay accu accu_update.

(** The layer with its gradient buffers replaced by the clipped gradient. *)
Definition with_gradient (input diff : CuMatrix) (l : AffineTransform)
  : AffineTransform :=
  set_bias_corr_ (clipped_bias_corr diff l)
    (set_linearity_corr_ (clipped_linearity_corr input diff l) l).

(* ================================================================== *)
(** ** Reading the optional tags of a persisted layer *)

(** The stream starts with the tag [token]. *)
Definition starts_with_tag (token : string) (is_ : stream) : bool :=
  match is_ with
  | Token s :: _ => String.eqb s token
  | _ => false
  end.

(** The stream behind the tag [token] and its value, or the stream itself
    when it does not start with them. *)
Definition skip_tagged_value (token : string) (is_ : stream) : stream :=
  match is_ with
  | Token s :: Basic _ :: rest => if String.eqb s token then rest else is_
  | _ => is_
  end.

(** Where the accumulator block of a persisted layer would start. *)
Definition accumulator_position (is_ : stream) : stream :=
  skip_tagged_value "<MaxGrad>" (skip_tagged_value "<LearnRateCoef>" is_).

(** The weight matrix and the bias have the declared dimensions: what
    [ReadData] asserts after reading them. *)
Definition well_dimensioned (l : AffineTransform) : Prop :=
  CuMatrixBase.NumRows (linearity_ l) = output_dim_ l /\
  CuMatrixBase.NumCols (linearity_ l) = input_dim_ l /\
  CuVectorBase.Dim (bias_ l) = output_dim_ l.

(** [l'] differs from [l] in the weight matrix and the bias vector at
    most. *)
Definition same_besides_parameters (l l' : AffineTransform) : Prop :=
  input_dim_ l' = input_dim_ l /\
  output_dim_ l' = output_dim_ l /\
  opts_ l' = opts_ l /\
  linearity_corr_ l' = linearity_corr_ l /\
  bias_corr_ l' = bias_corr_ l /\
  linearity_corr_accu l' = linearity_corr_accu l /\
  bias_corr_accu l' = bias_corr_accu l /\
  linearity_corr_accu_scale l' = linearity_corr_accu_scale l /\
  bias_corr_accu_scale l' = bias_corr_accu_scale l /\
  learn_rate_coef_ l' = learn_rate_coef_ l /\
  max_grad_ l' = max_grad_ l /\
  adaBuffersInitialized l' = adaBuffersInitialized l /\
  ada_allocations l' = ada_allocations l.

(* ================================================================== *)
(** ** Concrete layers and minibatches *)

Definition example_opts : NetTrainOptions :=
  {| learn_rate := 1; momentum := 0 |}.

Definition example_epsilon : BaseFloat := 1 / 100000000.

Definition example_decay : BaseFloat := 9 / 10.

(** The scenario of the specification: [dim_in = 3], [dim_out = 2], the
    weight matrix selects the first two inputs, the bias is zero, the input
    is a 4 x 3 matrix of ones. *)
Definition selector_layer : AffineTransform :=
  set_linearity_ [[1; 0; 0]; [0; 1; 0]] (AffineTransform_ctor 3 2 example_opts).

Definition ones_4x3 : CuMatrix :=
  [[1; 1; 1]; [1; 1; 1]; [1; 1; 1]; [1; 1; 1]].

(** An output gradient for the same minibatch. *)
Definition grads_4x2 : CuMatrix :=
  [[1; 2]; [0; 1]; [1; 0]; [0; 0]].

(** A layer with one input and one output, zero weight and bias, and the
    given learning-rate coefficient and clipping bound. *)
Definition scalar_layer (coef max_grad : BaseFloat) : AffineTransform :=
  set_max_grad_ max_grad
    (set_learn_rate_coef_ coef (AffineTransform_ctor 1 1 example_opts)).

(* ================================================================== *)
(** ** Parameter access: [NumParams], [GetParams], [SetBias],
       [SetLinearity] and the getters *)

(** Modelled from the spec: [Range(offset, length).CopyRowsFromMat(M)]
    writes the rows of [M], one after the other, into the elements
    [offset .. offset + length - 1] of the vector. *)
Definition RangeCopyRowsFromMat (offset length : nat) (M : CuMatrix)
           (this : CuVector) : CuVector :=
  imap (fun k x =>
          if (offset <=? k)%nat && (k <? offset + length)%nat then
            CuMatrixBase.at_ M ((k - offset) / CuMatrixBase.NumCols M)
                             ((k - offset) mod CuMatrixBase.NumCols M)
          else x)
       this.

(** Modelled from the spec: [Range(offset, length).CopyFromVec(v)] writes
    [v] into the elements [offset .. offset + length - 1] of the vector. *)
Definition RangeCopyFromVec (offset length : nat) (v : CuVector)
           (this : CuVector) : CuVector :=
  imap (fun k x =>
          if (offset <=? k)%nat && (k <? offset + length)%nat then
            CuVectorBase.at_ v (k - offset)
          else x)
       this.

(** Modelled from the spec: [CopyFromVec] and [CopyFromMat] overwrite the
    elements of [*this] by those of the argument. *)
Definition CopyFromVec (v : CuVector) (this : CuVector) : CuVector :=
  imap (fun j _ => CuVectorBase.at_ v j) this.

Definition CopyFromMat (M : CuMatrix) (this : CuMatrix) : CuMatrix :=
  CuMatrixBase.imap2 (fun i j _ => CuMatrixBase.at_ M i j) this.

(** [int32] is a signed integer of 32 bits.  An arithmetic result outside
    its range is an overflow, which the language leaves undefined. *)
Definition INT32_MIN : Z := (-2147483648)%Z.
Definition INT32_MAX : Z := 2147483647%Z.

Definition int32 (z : Z) : result Z :=
  if ((INT32_MIN <=? z) && (z <=? INT32_MAX))%Z then Ok z
  else Fault UndefinedBehaviour.

Definition int32_mul (a b : Z) : result Z := int32 (a * b).
Definition int32_add (a b : Z) : result Z := int32 (a + b).

(** [NumRows() * NumCols() + Dim()], in [int32]: the three dimensions are
    [int32] values ([MatrixIndexT]), and so are the product and the sum. *)
Definition NumParams (l : AffineTransform) : result Z :=
  elems <- int32_mul (Z.of_nat (CuMatrixBase.NumRows (linearity_ l)))
                     (Z.of_nat (CuMatrixBase.NumCols (linearity_ l))) ;;
  int32_add elems (Z.of_nat (CuVectorBase.Dim (bias_ l))).

(** [GetParams] returns what it leaves in [*wei_copy]. *)
Definition GetParams (l : AffineTransform) : result CuVector :=
  n <- NumParams l ;;
  let wei_copy := CuVectorBase.Zero (Z.to_nat n) in
  linearity_num_elem <-
    int32_mul (Z.of_nat (CuMatrixBase.NumRows (linearity_ l)))
              (Z.of_nat (CuMatrixBase.NumCols (linearity_ l))) ;;
  let wei_copy :=
    RangeCopyRowsFromMat 0 (Z.to_nat linearity_num_elem) (linearity_ l)
                         wei_copy in
  Ok (RangeCopyFromVec (Z.to_nat linearity_num_elem)
                       (CuVectorBase.Dim (bias_ l)) (bias_ l) wei_copy).

Definition SetBias (bias : CuVector) (l : AffineTransform)
  : result AffineTransform :=
  _ <- KALDI_ASSERT (CuVectorBase.Dim bias =? CuVectorBase.Dim (bias_ l))%nat ;;
  Ok (set_bias_ (CopyFromVec bias (bias_ l)) l).

Definition GetLinearity (l : AffineTransform) : CuMatrix := linearity_ l.

Definition SetLinearity (linearity : CuMatrix) (l : AffineTransform)
  : result AffineTransform :=
  _ <- KALDI_ASSERT (CuMatrixBase.NumRows linearity
                     =? CuMatrixBase.NumRows (linearity_ l))%nat ;;
  _ <- KALDI_ASSERT (CuMatrixBase.NumCols linearity
                     =? CuMatrixBase.NumCols (linearity_ l))%nat ;;
  Ok (set_linearity_ (CopyFromMat linearity (linearity_ l)) l).

Definition GetBiasCorr (l : AffineTransform) : CuVector := bias_corr_ l.

Definition GetLinearityCorr (l : AffineTransform) : CuMatrix :=
  linearity_corr_ l.

(* ================================================================== *)
(** ** Configurations of [InitData] *)

(** The stream of a configuration: each option name, then its value. *)
Definition config_stream (options : list (string * BaseFloat)) : stream :=
  flat_map (fun o => [Token (fst o); Basic (snd o)]) options.

(** The option names [InitData] knows. *)
Definition known_option (name : string) : bool :=
  String.eqb name "<ParamRange>"
  || String.eqb name "<LearnRateCoef>"
  || String.eqb name "<MaxGrad>".

(** The value the configuration gives to [name] last, or [default]. *)
Definition option_value (name : string) (default : BaseFloat)
           (options : list (string * BaseFloat)) : BaseFloat :=
  fold_left (fun acc o => if String.eqb (fst o) name then snd o else acc)
            options default.

(* ================================================================== *)
(** * Properties *)

(** ** Indexed traversals *)

Section IndexedFacts.
Variables A B : Type.

Lemma length_imap_from k (f : nat -> A -> B) l :
  length (imap_from k f l) = length l.
Proof. revert k; induction l as [|x t IH]; intros k; simpl; auto. Qed.

Lemma length_imap (f : nat -> A -> B) l : length (imap f l) = length l.
Proof. apply length_imap_from. Qed.

Lemma nth_imap_from k (f : nat -> A -> B) l i da db :
  (i < length l)%nat ->
  nth i (imap_from k f l) db = f (k + i)%nat (nth i l da).
Proof.
  revert k i; induction l as [|x t IH]; intros k i Hi; simpl in *; [lia|].
  destruct i as [|i].
  - now rewrite Nat.add_0_r.
  - rewrite (IH (S k) i) by lia. f_equal. lia.
Qed.

Lemma nth_imap (f : nat -> A -> B) l i da db :
  (i < length l)%nat -> nth i (imap f l) db = f i (nth i l da).
Proof. intros Hi. unfold imap. now rewrite (nth_imap_from 0 f l da db Hi). Qed.

Lemma Forall_imap_from (P : B -> Prop) k (f : nat -> A -> B) l :
  (forall i x, P (f i x)) -> Forall P (imap_from k f l).
Proof.
  intros H. revert k; induction l as [|x t IH]; intros k; simpl; auto.
Qed.

End IndexedFacts.

Lemma sum_upto_ext n f g :
  (forall k, (k < n)%nat -> f k = g k) -> sum_upto n f = sum_upto n g.
Proof.
  unfold sum_upto. intros E.
  assert (H : forall l, (forall k, In k l -> f k = g k) ->
              fold_right (fun k acc => f k + acc) 0 l
              = fold_right (fun k acc => g k + acc) 0 l).
  { induction l as [|a l IH]; simpl; intros Hl; [reflexivity|].
    rewrite Hl by now left. rewrite IH; [reflexivity|].
    intros k Hk. apply Hl. now right. }
  apply H. intros k Hk. apply in_seq in Hk. apply E. lia.
Qed.

Lemma has_shape_row m rows cols i :
  has_shape m rows cols -> (i < rows)%nat -> length (nth i m []) = cols.
Proof.
  intros [Hr Hc] Hi. rewrite Forall_forall in Hc.
  apply Hc. apply nth_In. lia.
Qed.

Lemma has_shape_NumCols m rows cols :
  has_shape m rows cols -> (0 < rows)%nat -> CuMatrixBase.NumCols m = cols.
Proof.
  intros H Hpos. pose proof (has_shape_row (i:=0) H Hpos) as H0.
  destruct m; simpl in *; [destruct H; simpl in *; lia | exact H0].
Qed.

Lemma imap2_length f m : length (CuMatrixBase.imap2 f m) = length m.
Proof. apply length_imap. Qed.

Lemma imap2_row f m i :
  (i < length m)%nat ->
  nth i (CuMatrixBase.imap2 f m) [] = imap (f i) (nth i m []).
Proof. intros Hi. unfold CuMatrixBase.imap2. now rewrite (nth_imap _ m [] [] Hi). Qed.

Lemma imap2_at f m i j :
  (i < length m)%nat -> (j < length (nth i m []))%nat ->
  CuMatrixBase.at_ (CuMatrixBase.imap2 f m) i j = f i j (CuMatrixBase.at_ m i j).
Proof.
  intros Hi Hj. unfold CuMatrixBase.at_.
  rewrite imap2_row by exact Hi. now rewrite (nth_imap _ _ 0 0 Hj).
Qed.

Lemma imap2_shape f m rows cols :
  has_shape m rows cols -> has_shape (CuMatrixBase.imap2 f m) rows cols.
Proof.
  intros [Hr Hc]. split; [now rewrite imap2_length|].
  apply Forall_forall. intros row Hin.
  destruct (In_nth _ _ [] Hin) as (i & Hi & <-).
  rewrite imap2_length in Hi. rewrite imap2_row by exact Hi.
  rewrite length_imap. rewrite Forall_forall in Hc. apply Hc. now apply nth_In.
Qed.

Lemma imap2_nth f m i j :
  (i < length m)%nat -> (j < length (nth i m []))%nat ->
  nth j (nth i (CuMatrixBase.imap2 f m) []) 0 = f i j (nth j (nth i m []) 0).
Proof. apply imap2_at. Qed.

Lemma nth_map_seq (f : nat -> R) n j d :
  (j < n)%nat -> nth j (map f (seq 0 n)) d = f j.
Proof.
  intros Hj. rewrite (nth_indep _ d (f 0%nat)) by now rewrite length_map, length_seq.
  rewrite (map_nth f). now rewrite seq_nth.
Qed.

(* ================================================================== *)
(** ** Forward and backward pass *)

(** C7: for a weight matrix [W] of shape [dim_out x dim_in], a bias of
    [dim_out] elements and an input with [dim_in] columns, [PropagateFnc]
    fills every row [i] of the output buffer, whatever it held before, with
    [x(i) * W^T + b], and leaves the layer as it was. *)
Theorem PropagateFnc_affine :
  forall (l : AffineTransform) (in_ out : CuMatrix) (batch : nat),
    has_shape (linearity_ l) (output_dim_ l) (input_dim_ l) ->
    has_shape in_ batch (input_dim_ l) ->
    has_shape out batch (output_dim_ l) ->
    fst (PropagateFnc in_ out l) = l /\
    has_shape (snd (PropagateFnc in_ out l)) batch (output_dim_ l) /\
    forall i, (i < batch)%nat ->
      nth i (snd (PropagateFnc in_ out l)) []
      = affine_row (linearity_ l) (bias_ l) (nth i in_ []).
Proof.
  intros l in_ out batch HW Hin Hout. cbn [PropagateFnc fst snd].
  split; [reflexivity|]. split.
  { unfold CuMatrixBase.AddMatMat, CuMatrixBase.AddVecToRows.
    now do 2 apply imap2_shape. }
  intros i Hi.
  assert (Hbatch : (0 < batch)%nat) by lia.
  pose proof (has_shape_NumCols Hin Hbatch) as Hcols.
  pose proof (has_shape_row Hin Hi) as Hrow_in.
  pose proof (has_shape_row Hout Hi) as Hrow_out.
  destruct Hout as [Hlen_out _]. destruct HW as [HWrows _].
  unfold CuMatrixBase.AddMatMat, CuMatrixBase.AddVecToRows, affine_row.
  unfold CuMatrixBase.NumRows.
  apply nth_ext with (d := 0) (d' := 0).
  - rewrite imap2_row by (rewrite imap2_length; lia).
    rewrite length_imap, imap2_row by lia.
    rewrite length_imap, length_map, length_seq. lia.
  - intros j Hj.
    rewrite imap2_row in Hj by (rewrite imap2_length; lia).
    rewrite length_imap, imap2_row, length_imap in Hj by lia.
    rewrite imap2_nth; cycle 1.
    { rewrite imap2_length; lia. }
    { rewrite imap2_row, length_imap by lia. exact Hj. }
    rewrite imap2_nth by lia.
    rewrite nth_map_seq by lia.
    cbn [CuMatrixBase.op_cols CuMatrixBase.op_at].
    rewrite Hcols, Hrow_in.
    unfold CuMatrixBase.at_ at 1.
    lra.
Qed.

(** C8: [BackpropagateFnc] fills every row [i] of the input-gradient buffer
    with [grad(i) * W] (weight not transposed, no bias term); the result is
    the same for any other bias, forward input and forward output, and the
    layer is left as it was. *)
Theorem BackpropagateFnc_grad :
  forall (l : AffineTransform) (in_ out out_diff in_diff : CuMatrix)
         (batch : nat),
    has_shape (linearity_ l) (output_dim_ l) (input_dim_ l) ->
    has_shape out_diff batch (output_dim_ l) ->
    has_shape in_diff batch (input_dim_ l) ->
    fst (BackpropagateFnc in_ out out_diff in_diff l) = l /\
    (forall i, (i < batch)%nat ->
       nth i (snd (BackpropagateFnc in_ out out_diff in_diff l)) []
       = grad_row (linearity_ l) (input_dim_ l) (nth i out_diff [])) /\
    (forall (l2 : AffineTransform) (in2 out2 : CuMatrix),
       linearity_ l2 = linearity_ l ->
       snd (BackpropagateFnc in2 out2 out_diff in_diff l2)
       = snd (BackpropagateFnc in_ out out_diff in_diff l)).
Proof.
  intros l in_ out out_diff in_diff batch HW Hod Hid.
  cbn [BackpropagateFnc fst snd].
  split; [reflexivity|]. split.
  - intros i Hi.
    assert (Hbatch : (0 < batch)%nat) by lia.
    pose proof (has_shape_NumCols Hod Hbatch) as Hcols.
    pose proof (has_shape_row Hod Hi) as Hrow_od.
    pose proof (has_shape_row Hid Hi) as Hrow_id.
    destruct Hid as [Hlen_id _].
    unfold CuMatrixBase.AddMatMat, grad_row.
    apply nth_ext with (d := 0) (d' := 0).
    + rewrite imap2_row by lia.
      rewrite length_imap, length_map, length_seq. lia.
    + intros k Hk.
      rewrite imap2_row, length_imap in Hk by lia.
      rewrite imap2_nth by lia.
      rewrite nth_map_seq by lia.
      cbn [CuMatrixBase.op_cols CuMatrixBase.op_at].
      rewrite Hcols, Hrow_od.
      unfold CuMatrixBase.at_ at 1.
      lra.
  - intros l2 in2 out2 E. now rewrite E.
Qed.

(* ================================================================== *)
(** ** What one [Update] call leaves in each member *)

(** Reduces member reads of member assignments. *)
Ltac members :=
  cbv beta iota zeta delta
      [input_dim_ output_dim_ opts_ linearity_ bias_ linearity_corr_ bias_corr_
       linearity_corr_accu bias_corr_accu linearity_corr_accu_scale
       bias_corr_accu_scale learn_rate_coef_ max_grad_ adaBuffersInitialized
       ada_allocations
       set_linearity_ set_bias_ set_linearity_corr_ set_bias_corr_
       set_linearity_corr_accu set_bias_corr_accu
       set_linearity_corr_accu_scale set_bias_corr_accu_scale
       set_learn_rate_coef_ set_max_grad_ set_adaBuffersInitialized
       count_allocation InitAdaBuffers UpdateRule_eqb is_adaptive
       with_gradient negb orb andb fst snd].

Section UpdateFacts.
Variables (epsilon rmsprop_decay : BaseFloat).

Local Abbreviation Update' := (Update epsilon rmsprop_decay).

(** The first two steps of [Update], common to all rules. *)
Lemma Update_sgd_eq input diff l :
  Update' input diff sgd_update l
  = let g := with_gradient input diff l in
    let lr := learn_rate (opts_ l) * learn_rate_coef_ l in
    set_bias_ (CuVectorBase.AddVec (- lr) (bias_corr_ g) (bias_ l))
      (set_linearity_
         (CuMatrixBase.AddMat (- lr) (linearity_corr_ g) (linearity_ l)) g).
Proof.
  destruct l as [? ? ? ? ? ? ? ? ? ? ? ? g b ?].
  cbv delta [Update]. members.
  cbv delta [clipped_linearity_corr clipped_bias_corr
             blended_linearity_corr blended_bias_corr]. members.
  destruct (Rlt_dec 0 g); reflexivity.
Qed.

Lemma Update_adaptive_eq input diff rule l :
  is_adaptive rule = true ->
  Update' input diff rule l
  = let g := with_gradient input diff l in
    let a := if adaBuffersInitialized l then g else InitAdaBuffers g in
    let accu := AccuUpdate rmsprop_decay rule (linearity_corr_accu a)
                           (linearity_corr_ g) in
    let accu_b := AccuUpdateVec rmsprop_decay rule (bias_corr_accu a)
                                (bias_corr_ g) in
    let sc := AdagradScaleCompute epsilon (linearity_corr_accu_scale a) accu in
    let sc_b := AdagradScaleComputeVec epsilon (bias_corr_accu_scale a) accu_b in
    let lr := learn_rate (opts_ l) in
    set_bias_ (CuVectorBase.AddVecVec (- lr) sc_b (bias_corr_ g) 1 (bias_ l))
      (set_linearity_
         (CuMatrixBase.AddMatMatElements (- lr) sc (linearity_corr_ g) 1
                                         (linearity_ l))
         (set_bias_corr_accu_scale sc_b
            (set_linearity_corr_accu_scale sc
               (set_bias_corr_accu accu_b
                  (set_linearity_corr_accu accu a))))).
Proof.
  intros Hrule.
  destruct l as [? ? ? ? ? ? ? ? ? ? ? ? g b ?].
  cbv delta [Update AccuUpdate AccuUpdateVec].
  destruct rule; [discriminate Hrule| |];
    members;
    cbv delta [clipped_linearity_corr clipped_bias_corr
               blended_linearity_corr blended_bias_corr]; members;
    destruct (Rlt_dec 0 g); destruct b; reflexivity.
Qed.

Lemma Update_linearity_corr input diff rule l :
  linearity_corr_ (Update' input diff rule l)
  = clipped_linearity_corr input diff l.
Proof.
  destruct rule;
    [rewrite Update_sgd_eq | rewrite Update_adaptive_eq by reflexivity ..];
    destruct l as [? ? ? ? ? ? ? ? ? ? ? ? ? [] ?]; reflexivity.
Qed.

Lemma Update_bias_corr input diff rule l :
  bias_corr_ (Update' input diff rule l) = clipped_bias_corr diff l.
Proof.
  destruct rule;
    [rewrite Update_sgd_eq | rewrite Update_adaptive_eq by reflexivity ..];
    destruct l as [? ? ? ? ? ? ? ? ? ? ? ? ? [] ?]; reflexivity.
Qed.

Lemma Update_flag input diff rule l :
  adaBuffersInitialized (Update' input diff rule l)
  = adaBuffersInitialized l || is_adaptive rule.
Proof.
  destruct rule;
    [rewrite Update_sgd_eq | rewrite Update_adaptive_eq by reflexivity ..];
    destruct l as [? ? ? ? ? ? ? ? ? ? ? ? ? [] ?]; reflexivity.
Qed.

Lemma Update_allocations input diff rule l :
  ada_allocations (Update' input diff rule l)
  = if is_adaptive rule && negb (adaBuffersInitialized l)
    then S (ada_allocations l) else ada_allocations l.
Proof.
  destruct rule;
    [rewrite Update_sgd_eq | rewrite Update_adaptive_eq by reflexivity ..];
    destruct l as [? ? ? ? ? ? ? ? ? ? ? ? ? [] ?]; reflexivity.
Qed.

Lemma Update_scalars input diff rule l :
  learn_rate_coef_ (Update' input diff rule l) = learn_rate_coef_ l /\
  max_grad_ (Update' input diff rule l) = max_grad_ l /\
  input_dim_ (Update' input diff rule l) = input_dim_ l /\
  output_dim_ (Update' input diff rule l) = output_dim_ l /\
  opts_ (Update' input diff rule l) = opts_ l.
Proof.
  destruct rule;
    [rewrite Update_sgd_eq | rewrite Update_adaptive_eq by reflexivity ..];
    destruct l as [? ? ? ? ? ? ? ? ? ? ? ? ? [] ?]; repeat split; reflexivity.
Qed.

End UpdateFacts.

Lemma clamp_within g x : 0 <= g -> - g <= Rmin g (Rmax (- g) x) <= g.
Proof.
  intros Hg. unfold Rmin, Rmax.
  destruct (Rle_dec (- g) x); destruct (Rle_dec g _); lra.
Qed.

(* ================================================================== *)
(** ** Gradient clipping *)

(** C9: after an [Update] call on a layer whose [max_grad_] is [g > 0],
    every element of [linearity_corr_] and [bias_corr_] lies in [[-g, g]];
    with [max_grad_ = 0] the buffers hold the momentum-blended gradient,
    not clamped. *)
Theorem Update_clips_gradient :
  forall (epsilon rmsprop_decay : BaseFloat) (input diff : CuMatrix)
         (rule : UpdateRule) (l : AffineTransform),
    let l' := Update epsilon rmsprop_decay input diff rule l in
    let g := max_grad_ l in
    (0 < g ->
     mat_within (- g) g (linearity_corr_ l') /\
     vec_within (- g) g (bias_corr_ l')) /\
    (g = 0 ->
     linearity_corr_ l' = blended_linearity_corr input diff l /\
     bias_corr_ l' = blended_bias_corr diff l).
Proof.
  intros epsilon rmsprop_decay input diff rule l l' g. subst l'.
  rewrite Update_linearity_corr, Update_bias_corr.
  unfold clipped_linearity_corr, clipped_bias_corr. fold g.
  split.
  - intros Hpos. destruct (Rlt_dec 0 g) as [_|Hn]; [|contradiction].
    split.
    + unfold mat_within, CuMatrixBase.ApplyCeiling, CuMatrixBase.ApplyFloor.
      rewrite map_map. apply Forall_map, Forall_forall. intros row _.
      unfold vec_within. rewrite map_map. apply Forall_map, Forall_forall.
      intros x _. apply clamp_within. lra.
    + unfold vec_within, CuVectorBase.ApplyCeiling, CuVectorBase.ApplyFloor.
      rewrite map_map. apply Forall_map, Forall_forall.
      intros x _. apply clamp_within. lra.
  - intros Hz. destruct (Rlt_dec 0 g) as [H|_]; [lra|]. split; reflexivity.
Qed.

(* ================================================================== *)
(** ** The members [Update] writes, rule by rule *)

Section UpdateMembers.
Variables (epsilon rmsprop_decay : BaseFloat).

Local Abbreviation Update' := (Update epsilon rmsprop_decay).

Lemma Update_sgd_parameters input diff l :
  let l' := Update' input diff sgd_update l in
  let lr := learn_rate (opts_ l) * learn_rate_coef_ l in
  linearity_ l'
  = CuMatrixBase.AddMat (- lr) (linearity_corr_ l') (linearity_ l) /\
  bias_ l' = CuVectorBase.AddVec (- lr) (bias_corr_ l') (bias_ l).
Proof.
  cbv zeta. rewrite Update_linearity_corr, Update_bias_corr.
  rewrite Update_sgd_eq.
  destruct l; members; split; reflexivity.
Qed.

Lemma Update_sgd_buffers input diff l :
  let l' := Update' input diff sgd_update l in
  linearity_corr_accu l' = linearity_corr_accu l /\
  bias_corr_accu l' = bias_corr_accu l /\
  linearity_corr_accu_scale l' = linearity_corr_accu_scale l /\
  bias_corr_accu_scale l' = bias_corr_accu_scale l.
Proof.
  cbv zeta. rewrite Update_sgd_eq.
  destruct l; members; repeat split; reflexivity.
Qed.

(** The accumulators and scale buffers an adaptive call starts from: those
    of the layer, or the zero-filled ones [InitAdaBuffers] allocates. *)
Lemma Update_adaptive_buffers input diff rule l :
  is_adaptive rule = true ->
  let l' := Update' input diff rule l in
  let fresh := negb (adaBuffersInitialized l) in
  let zero_m := CuMatrixBase.Zero (output_dim_ l) (input_dim_ l) in
  let zero_v := CuVectorBase.Zero (output_dim_ l) in
  linearity_corr_accu l'
  = AccuUpdate rmsprop_decay rule
      (if fresh then zero_m else linearity_corr_accu l) (linearity_corr_ l') /\
  bias_corr_accu l'
  = AccuUpdateVec rmsprop_decay rule
      (if fresh then zero_v else bias_corr_accu l) (bias_corr_ l') /\
  linearity_corr_accu_scale l'
  = AdagradScaleCompute epsilon
      (if fresh then zero_m else linearity_corr_accu_scale l)
      (linearity_corr_accu l') /\
  bias_corr_accu_scale l'
  = AdagradScaleComputeVec epsilon
      (if fresh then zero_v else bias_corr_accu_scale l)
      (bias_corr_accu l').
Proof.
  intros Hrule. cbv zeta. rewrite Update_linearity_corr, Update_bias_corr.
  rewrite Update_adaptive_eq by exact Hrule.
  destruct l as [? ? ? ? ? ? ? ? ? ? ? ? ? [] ?]; members;
    repeat split; reflexivity.
Qed.

Lemma Update_adaptive_parameters input diff rule l :
  is_adaptive rule = true ->
  let l' := Update' input diff rule l in
  let lr := learn_rate (opts_ l) in
  linearity_ l'
  = CuMatrixBase.AddMatMatElements (- lr) (linearity_corr_accu_scale l')
      (linearity_corr_ l') 1 (linearity_ l) /\
  bias_ l'
  = CuVectorBase.AddVecVec (- lr) (bias_corr_accu_scale l') (bias_corr_ l') 1
      (bias_ l).
Proof.
  intros Hrule. cbv zeta. rewrite Update_linearity_corr, Update_bias_corr.
  rewrite Update_adaptive_eq by exact Hrule.
  destruct l as [? ? ? ? ? ? ? ? ? ? ? ? ? [] ?]; members;
    split; reflexivity.
Qed.

Lemma Updates_flag calls l :
  adaBuffersInitialized (Updates epsilon rmsprop_decay calls l)
  = adaBuffersInitialized l || existsb (fun c => is_adaptive (snd c)) calls.
Proof.
  revert l. induction calls as [|[[input diff] rule] calls IH]; intros l.
  - cbn. now rewrite orb_false_r.
  - cbn [Updates fold_left existsb snd].
    change (fold_left _ calls ?x) with (Updates epsilon rmsprop_decay calls x).
    rewrite IH. rewrite Update_flag. now rewrite orb_assoc.
Qed.

Lemma Updates_allocations calls l :
  ada_allocations (Updates epsilon rmsprop_decay calls l)
  = if negb (adaBuffersInitialized l)
       && existsb (fun c => is_adaptive (snd c)) calls
    then S (ada_allocations l) else ada_allocations l.
Proof.
  revert l. induction calls as [|[[input diff] rule] calls IH]; intros l.
  - cbn. now rewrite andb_false_r.
  - cbn [Updates fold_left existsb snd].
    change (fold_left _ calls ?x) with (Updates epsilon rmsprop_decay calls x).
    rewrite IH. rewrite Update_flag, Update_allocations.
    destruct (adaBuffersInitialized l), (is_adaptive rule),
      (existsb (fun c => is_adaptive (snd c)) calls); reflexivity.
Qed.

End UpdateMembers.

(* ================================================================== *)
(** ** Lazy allocation of the adaptive buffers *)

(** C6: over any sequence of [Update] calls on one layer, a call with rule
    sgd allocates nothing and leaves the flag and the adaptive buffers as
    they were; the first call with rule adagrad or rmsprop allocates the
    buffers zero-filled (its accumulator update starts from zero) and sets
    the flag; once the flag is set every later call, with any rule, keeps
    it set and allocates nothing, an adaptive call continuing from the
    accumulators it finds.  Over the whole sequence the buffers are
    allocated at most once. *)
Theorem Update_lazy_allocation :
  forall (epsilon rmsprop_decay : BaseFloat),
    let U := Update epsilon rmsprop_decay in
    (forall input diff l,
        ada_allocations (U input diff sgd_update l) = ada_allocations l /\
        adaBuffersInitialized (U input diff sgd_update l)
        = adaBuffersInitialized l /\
        linearity_corr_accu (U input diff sgd_update l)
        = linearity_corr_accu l /\
        bias_corr_accu (U input diff sgd_update l) = bias_corr_accu l /\
        linearity_corr_accu_scale (U input diff sgd_update l)
        = linearity_corr_accu_scale l /\
        bias_corr_accu_scale (U input diff sgd_update l)
        = bias_corr_accu_scale l) /\
    (forall input diff rule l,
        is_adaptive rule = true ->
        adaBuffersInitialized l = false ->
        adaBuffersInitialized (U input diff rule l) = true /\
        ada_allocations (U input diff rule l) = S (ada_allocations l) /\
        linearity_corr_accu (U input diff rule l)
        = AccuUpdate rmsprop_decay rule
            (CuMatrixBase.Zero (output_dim_ l) (input_dim_ l))
            (linearity_corr_ (U input diff rule l)) /\
        bias_corr_accu (U input diff rule l)
        = AccuUpdateVec rmsprop_decay rule
            (CuVectorBase.Zero (output_dim_ l))
            (bias_corr_ (U input diff rule l))) /\
    (forall input diff rule l,
        adaBuffersInitialized l = true ->
        adaBuffersInitialized (U input diff rule l) = true /\
        ada_allocations (U input diff rule l) = ada_allocations l /\
        (is_adaptive rule = true ->
         linearity_corr_accu (U input diff rule l)
         = AccuUpdate rmsprop_decay rule (linearity_corr_accu l)
             (linearity_corr_ (U input diff rule l)) /\
         bias_corr_accu (U input diff rule l)
         = AccuUpdateVec rmsprop_decay rule (bias_corr_accu l)
             (bias_corr_ (U input diff rule l)))) /\
    (forall calls l,
        let adaptive := existsb (fun c => is_adaptive (snd c)) calls in
        adaBuffersInitialized (Updates epsilon rmsprop_decay calls l)
        = adaBuffersInitialized l || adaptive /\
        ada_allocations (Updates epsilon rmsprop_decay calls l)
        = if negb (adaBuffersInitialized l) && adaptive
          then S (ada_allocations l) else ada_allocations l).
Proof.
  intros epsilon rmsprop_decay U. subst U. repeat apply conj.
  - intros input diff l.
    rewrite Update_flag, Update_allocations, orb_false_r.
    split; [reflexivity|]. split; [reflexivity|].
    apply Update_sgd_buffers.
  - intros input diff rule l Hrule Hflag.
    rewrite Update_flag, Update_allocations, Hrule, Hflag.
    split; [reflexivity|]. split; [reflexivity|].
    destruct (Update_adaptive_buffers epsilon rmsprop_decay input diff rule l Hrule)
      as (Ha & Hb & _).
    rewrite Hflag in Ha, Hb. split; [exact Ha | exact Hb].
  - intros input diff rule l Hflag.
    rewrite Update_flag, Update_allocations, Hflag, andb_false_r.
    split; [reflexivity|]. split; [reflexivity|].
    intros Hrule.
    destruct (Update_adaptive_buffers epsilon rmsprop_decay input diff rule l Hrule)
      as (Ha & Hb & _).
    rewrite Hflag in Ha, Hb. split; [exact Ha | exact Hb].
  - intros calls l adaptive. subst adaptive. split.
    + apply Updates_flag.
    + apply Updates_allocations.
Qed.

(* ================================================================== *)
(** ** Numerals of a text stream *)

Lemma pow10_pos k : 0 < powerRZ 10 k.
Proof. apply powerRZ_lt. lra. Qed.

Lemma pow10_add a b : powerRZ 10 (a + b) = powerRZ 10 a * powerRZ 10 b.
Proof. apply powerRZ_add. lra. Qed.

Lemma pow10_succ a : powerRZ 10 (a + 1) = 10 * powerRZ 10 a.
Proof. rewrite pow10_add. replace (powerRZ 10 1) with 10 by (simpl; lra). lra. Qed.

Lemma pow10_mono a b : (a <= b)%Z -> powerRZ 10 a <= powerRZ 10 b.
Proof.
  intros Hab. replace b with (a + Z.of_nat (Z.to_nat (b - a)))%Z by lia.
  rewrite pow10_add, <- pow_powerRZ.
  pose proof (pow10_pos a) as Hpos.
  assert (H1 : 1 <= 10 ^ Z.to_nat (b - a)) by (apply pow_R1_Rle; lra).
  nra.
Qed.

Lemma decade_unique v a b :
  powerRZ 10 a <= v < powerRZ 10 (a + 1) ->
  powerRZ 10 b <= v < powerRZ 10 (b + 1) ->
  a = b.
Proof.
  intros [Ha1 Ha2] [Hb1 Hb2].
  destruct (Z.lt_trichotomy a b) as [Hlt | [Heq | Hgt]]; [|exact Heq|].
  - pose proof (@pow10_mono (a + 1) b ltac:(lia)). lra.
  - pose proof (@pow10_mono (b + 1) a ltac:(lia)). lra.
Qed.

Lemma decade_from_sound fuel : forall k0 a k,
  decade_from fuel k0 a = Some k ->
  powerRZ 10 k <= a /\ (k <= k0)%Z /\ ((k < k0)%Z -> a < powerRZ 10 (k + 1)).
Proof.
  induction fuel as [|fuel IH]; intros k0 a k; cbn [decade_from];
    [discriminate|].
  destruct (Rle_dec (powerRZ 10 k0) a) as [Hle | Hnle].
  - intros [= <-]. split; [exact Hle|]. split; lia.
  - intros H. destruct (IH _ _ _ H) as (H1 & H2 & H3).
    split; [exact H1|]. split; [lia|]. intros _.
    destruct (Z.eq_dec k (k0 - 1)) as [-> | Hne].
    + replace (k0 - 1 + 1)%Z with k0 by lia. lra.
    + apply H3. lia.
Qed.

Lemma decade_sound a k :
  decade a = Some k -> powerRZ 10 k <= a < powerRZ 10 (k + 1).
Proof.
  unfold decade. destruct (Rlt_dec a (powerRZ 10 39)) as [Hlt|]; [|discriminate].
  intros H. destruct (decade_from_sound _ _ _ H) as (H1 & H2 & H3).
  split; [exact H1|].
  destruct (Z.eq_dec k 38) as [-> | Hne]; [exact Hlt | apply H3; lia].
Qed.



Lemma nearest_IZR m : nearest (IZR m) = m.
Proof.
  unfold nearest.
  rewrite <- (tech_up (IZR m + / 2) (m + 1)); [lia | |];
    rewrite plus_IZR; lra.
Qed.

Lemma nearest_bounds r : r - / 2 < IZR (nearest r) <= r + / 2.
Proof.
  unfold nearest. rewrite minus_IZR.
  destruct (archimed (r + / 2)) as [H1 H2]. lra.
Qed.

Lemma pow10_6 k : powerRZ 10 k = 1000000 * powerRZ 10 (k - 6).
Proof.
  replace k with (6 + (k - 6))%Z at 1 by lia. rewrite pow10_add.
  replace (powerRZ 10 6) with 1000000 by (simpl; lra). reflexivity.
Qed.

Lemma ulp_decade k : powerRZ 10 (k + 1 - text_precision) = powerRZ 10 (k - 6).
Proof. unfold text_precision. f_equal. lia. Qed.

(** A value of seven significant digits is printed as it is. *)
Lemma text_image_printed (s : R) (n k : Z) :
  s = 1 \/ s = - 1 ->
  (1000000 <= n <= 10000000)%Z ->
  text_image (s * (IZR n * powerRZ 10 (k - 6)))
  = s * (IZR n * powerRZ 10 (k - 6)).
Proof.
  intros Hs [Hn1 Hn2].
  pose proof (pow10_pos (k - 6)) as Hq.
  pose proof (pow10_6 k) as Hk.
  pose proof (pow10_succ k) as Hk1.
  pose proof (pow10_succ (k + 1)) as Hk2.
  set (q := powerRZ 10 (k - 6)) in *.
  pose proof (IZR_le _ _ Hn1) as Hr1. pose proof (IZR_le _ _ Hn2) as Hr2.
  assert (Hnq : 1000000 * q <= IZR n * q <= 10000000 * q) by nra.
  assert (Habs : Rabs (s * (IZR n * q)) = IZR n * q).
  { destruct Hs as [-> | ->].
    - rewrite Rmult_1_l. apply Rabs_pos_eq. nra.
    - replace (- 1 * (IZR n * q)) with (- (IZR n * q)) by lra.
      rewrite Rabs_Ropp. apply Rabs_pos_eq. nra. }
  assert (Hsign : (if Rle_dec 0 (s * (IZR n * q)) then 1 else - 1) = s).
  { destruct Hs as [-> | ->];
      destruct (Rle_dec 0 _) as [H | H]; trivial; exfalso; nra. }
  unfold text_image. rewrite Habs.
  destruct (decade (IZR n * q)) as [k'|] eqn:Hd; [|reflexivity].
  apply decade_sound in Hd. cbv zeta. rewrite Hsign, ulp_decade. f_equal.
  destruct (Z.eq_dec n 10000000) as [-> | Hne].
  - assert (Hk' : k' = (k + 1)%Z).
    { symmetry. apply decade_unique with (v := 10000000 * q); [|exact Hd].
      lra. }
    subst k'. replace (k + 1 - 6)%Z with (k - 6 + 1)%Z by lia.
    rewrite pow10_succ. fold q.
    replace (10000000 * q / (10 * q)) with (IZR 1000000) by (field; lra).
    rewrite nearest_IZR. lra.
  - assert (Hlt : IZR n <= 9999999) by (apply IZR_le; lia).
    assert (Hk' : k' = k).
    { symmetry. apply decade_unique with (v := IZR n * q); [|exact Hd].
      nra. }
    subst k'. fold q.
    replace (IZR n * q / q) with (IZR n) by (field; lra).
    now rewrite nearest_IZR.
Qed.

(** What the text writer prints is printed again as it is. *)
Lemma text_image_idempotent x : text_image (text_image x) = text_image x.
Proof.
  assert (H : text_image x = x \/
              exists s n k,
                (s = 1 \/ s = - 1) /\ (1000000 <= n <= 10000000)%Z /\
                text_image x = s * (IZR n * powerRZ 10 (k - 6))).
  { unfold text_image.
    destruct (decade (Rabs x)) as [k|] eqn:Hd; [right | now left].
    apply decade_sound in Hd. cbv zeta. rewrite ulp_decade.
    pose proof (pow10_pos (k - 6)) as Hq.
    pose proof (pow10_6 k) as Hk.
    pose proof (pow10_succ k) as Hk1.
    set (q := powerRZ 10 (k - 6)) in *.
    exists (if Rle_dec 0 x then 1 else - 1), (nearest (Rabs x / q)), k.
    split; [destruct (Rle_dec 0 x); auto|]. split; [|reflexivity].
    assert (Hr : 1000000 <= Rabs x / q < 10000000).
    { split.
      - apply Rmult_le_reg_r with (r := q); [exact Hq|].
        replace (Rabs x / q * q) with (Rabs x) by (field; lra). lra.
      - apply Rmult_lt_reg_r with (r := q); [exact Hq|].
        replace (Rabs x / q * q) with (Rabs x) by (field; lra). lra. }
    destruct (nearest_bounds (Rabs x / q)) as [Hlo Hhi].
    split.
    - assert (IZR 999999 < IZR (nearest (Rabs x / q))) by lra.
      apply lt_IZR in H. lia.
    - assert (IZR (nearest (Rabs x / q)) < IZR 10000001) by lra.
      apply lt_IZR in H. lia. }
  destruct H as [H | (s & n & k & Hs & Hn & H)].
  - now rewrite H.
  - rewrite H. now apply text_image_printed.
Qed.



Lemma written_idempotent binary x :
  written binary (written binary x) = written binary x.
Proof. destruct binary; [reflexivity | apply text_image_idempotent]. Qed.



Lemma map_written_idempotent binary (v : CuVector) :
  map (written binary) (map (written binary) v) = map (written binary) v.
Proof. rewrite map_map. apply map_ext. intros x. apply written_idempotent. Qed.

Lemma map_map_written_idempotent binary (m : CuMatrix) :
  map (map (written binary)) (map (map (written binary)) m)
  = map (map (written binary)) m.
Proof.
  rewrite map_map. apply map_ext. intros row. apply map_written_idempotent.
Qed.

Lemma NumCols_map_map (f : R -> R) m :
  CuMatrixBase.NumCols (map (map f) m) = CuMatrixBase.NumCols m.
Proof. destruct m as [|row m]; [reflexivity|]. cbn. apply length_map. Qed.

(* ================================================================== *)
(** ** Persistence *)

Lemma WriteData_app os binary l :
  WriteData os binary l = os ++ WriteData [] binary l.
Proof.
  unfold WriteData, WriteToken, WriteBasicType, WriteMatrix, WriteVector.
  destruct (adaBuffersInitialized l); cbn [app];
    repeat rewrite <- app_assoc; reflexivity.
Qed.

(** What [ReadData] restores of what [WriteData] wrote, in either mode. *)
Lemma WriteData_ReadData_written l binary opts rest :
  well_dimensioned l ->
  exists l',
    ReadData (WriteData [] binary l ++ rest) binary
             (AffineTransform_ctor (input_dim_ l) (output_dim_ l) opts)
    = Ok (l', rest) /\
    linearity_ l' = map (map (written binary)) (linearity_ l) /\
    bias_ l' = map (written binary) (bias_ l) /\
    learn_rate_coef_ l' = written binary (learn_rate_coef_ l) /\
    max_grad_ l' = written binary (max_grad_ l) /\
    adaBuffersInitialized l' = adaBuffersInitialized l /\
    (adaBuffersInitialized l = true ->
     linearity_corr_accu l' = map (map (written binary)) (linearity_corr_accu l)
     /\ bias_corr_accu l' = map (written binary) (bias_corr_accu l)).
Proof.
  intros (Hrows & Hcols & Hdim).
  destruct l as [din dout o W b lc bc accu accu_b sc sc_b coef g flag n].
  cbn [linearity_ bias_ input_dim_ output_dim_ learn_rate_coef_ max_grad_
       adaBuffersInitialized linearity_corr_accu bias_corr_accu]
    in Hrows, Hcols, Hdim |- *.
  assert (Hcols' : CuMatrixBase.NumCols (map (map (written binary)) W) = din)
    by (now rewrite NumCols_map_map).
  assert (Hrows' : length (map (map (written binary)) W) = dout)
    by (now rewrite length_map).
  assert (Hdim' : length (map (written binary) b) = dout)
    by (now rewrite length_map).
  clear Hrows Hcols Hdim.
  unfold WriteData, WriteToken, WriteBasicType, WriteMatrix, WriteVector.
  cbn [linearity_ bias_ input_dim_ output_dim_ learn_rate_coef_ max_grad_
       adaBuffersInitialized linearity_corr_accu bias_corr_accu].
  revert Hrows' Hcols' Hdim'.
  generalize (map (map (written binary)) W) as W'.
  generalize (map (written binary) b) as b'.
  generalize (map (map (written binary)) accu) as accu'.
  generalize (map (written binary) accu_b) as accu_b'.
  generalize (written binary coef) as coef'.
  generalize (written binary g) as g'.
  intros g' coef' accu_b' accu' b' W' Hrows Hcols Hdim.
  unfold ReadData, AffineTransform_ctor.
  destruct flag; cbn; rewrite Hrows, Hcols, Hdim, !Nat.eqb_refl; cbn;
    eexists; (split; [reflexivity|]); cbn; repeat split;
    try reflexivity; discriminate.
Qed.


Lemma bind_inv (A B : Type) (r : result A) (k : A -> result B) (b : B) :
  bind r k = Ok b -> exists a, r = Ok a /\ k a = Ok b.
Proof. destruct r as [a|f]; cbn; [eauto | discriminate]. Qed.

Lemma ExpectToken_inv is_ binary token rest :
  ExpectToken is_ binary token = Ok rest -> is_ = Token token :: rest.
Proof.
  destruct is_ as [|[s|x|m|v] r]; cbn; try discriminate.
  destruct (String.eqb s token) eqn:E; [|discriminate].
  apply String.eqb_eq in E. now intros [= ->]; subst.
Qed.

Lemma ReadBasicType_inv is_ binary x rest :
  ReadBasicType is_ binary = Ok (x, rest) -> is_ = Basic x :: rest.
Proof.
  destruct is_ as [|[s|y|m|v] r]; cbn; try discriminate. now intros [= -> ->].
Qed.

Lemma ReadMatrix_inv is_ binary m rest :
  ReadMatrix is_ binary = Ok (m, rest) -> is_ = MatrixItem m :: rest.
Proof.
  destruct is_ as [|[s|y|m'|v] r]; cbn; try discriminate. now intros [= -> ->].
Qed.

Lemma ReadVector_inv is_ binary v rest :
  ReadVector is_ binary = Ok (v, rest) -> is_ = VectorItem v :: rest.
Proof.
  destruct is_ as [|[s|y|m|v'] r]; cbn; try discriminate. now intros [= -> ->].
Qed.

Lemma KALDI_ASSERT_inv cond u : KALDI_ASSERT cond = Ok u -> cond = true.
Proof. destruct cond; [reflexivity | discriminate]. Qed.

(** The streams [ReadData] accepts, and the layer it leaves: the weight
    matrix and the bias, preceded by nothing, by the learning-rate
    coefficient, by it and the clipping bound, or by both and the
    accumulator block. *)
Lemma ReadData_inv is_ binary l l' rest :
  ReadData is_ binary l = Ok (l', rest) ->
  exists W b,
    (CuMatrixBase.NumRows W = output_dim_ l /\
     CuMatrixBase.NumCols W = input_dim_ l /\
     CuVectorBase.Dim b = output_dim_ l) /\
    let finish := fun l0 => set_bias_ b (set_linearity_ W l0) in
    let l0 := set_adaBuffersInitialized false l in
    ((is_ = MatrixItem W :: VectorItem b :: rest /\
      l' = finish l0) \/
     (exists x,
         is_ = Token "<LearnRateCoef>" :: Basic x
                     :: MatrixItem W :: VectorItem b :: rest /\
         l' = finish (set_learn_rate_coef_ x l0)) \/
     (exists x y,
         is_ = Token "<LearnRateCoef>" :: Basic x :: Token "<MaxGrad>" :: Basic y
                     :: MatrixItem W :: VectorItem b :: rest /\
         l' = finish (set_max_grad_ y (set_learn_rate_coef_ x l0))) \/
     (exists x y A a,
         is_ = Token "<LearnRateCoef>" :: Basic x :: Token "<MaxGrad>" :: Basic y
                     :: Token "<AffineAccus>" :: MatrixItem A :: VectorItem a
                     :: MatrixItem W :: VectorItem b :: rest /\
         l' = finish
                (set_bias_corr_accu a
                   (set_linearity_corr_accu A
                      (InitAdaBuffers
                         (set_max_grad_ y (set_learn_rate_coef_ x l0))))))).
Proof.
  unfold ReadData. intros H.
  apply bind_inv in H as ([l1 is1] & H1 & H).
  apply bind_inv in H as ([l2 is2] & H2 & H).
  apply bind_inv in H as ([l3 is3] & H3 & H).
  apply bind_inv in H as ([W is4] & HW & H). apply ReadMatrix_inv in HW.
  apply bind_inv in H as ([b is5] & Hb & H). apply ReadVector_inv in Hb.
  apply bind_inv in H as (u1 & Hrows & H). apply KALDI_ASSERT_inv in Hrows.
  apply bind_inv in H as (u2 & Hcols & H). apply KALDI_ASSERT_inv in Hcols.
  apply bind_inv in H as (u3 & Hdim & H). apply KALDI_ASSERT_inv in Hdim.
  injection H as El Erest. subst l' is3 is4 is5.
  apply Nat.eqb_eq in Hrows, Hcols, Hdim.
  exists W, b. cbv zeta.
  destruct (is_open_angle (Peek is_ binary)) eqn:P1.
  - apply bind_inv in H1 as (r1 & E1 & H1). apply ExpectToken_inv in E1.
    apply bind_inv in H1 as ([x r2] & E2 & H1). apply ReadBasicType_inv in E2.
    injection H1 as El1 Eis1. subst is_ r1 r2 l1.
    destruct (is_open_angle (Peek is1 binary)) eqn:P2.
    + apply bind_inv in H2 as (r1 & E1 & H2). apply ExpectToken_inv in E1.
      apply bind_inv in H2 as ([y r2] & E2 & H2). apply ReadBasicType_inv in E2.
      injection H2 as El2 Eis2. subst is1 r1 r2 l2.
      destruct (is_open_angle (Peek is2 binary)) eqn:P3.
      * apply bind_inv in H3 as (r1 & E1 & H3). apply ExpectToken_inv in E1.
        apply bind_inv in H3 as ([A r2] & E2 & H3). apply ReadMatrix_inv in E2.
        apply bind_inv in H3 as ([a r3] & E3 & H3). apply ReadVector_inv in E3.
        injection H3 as El3 Eis3. subst is2 r1 r2 r3 l3.
        split; [now split|]. right; right; right. now exists x, y, A, a.
      * injection H3 as El3 Eis3. subst is2 l3.
        split; [now split|]. right; right; left. now exists x, y.
    + injection H2 as El2 Eis2. subst is2 l2. rewrite P2 in H3.
      injection H3 as El3 Eis3. subst is1 l3.
      split; [now split|]. right; left. now exists x.
  - injection H1 as El1 Eis1. subst is1 l1. rewrite P1 in H2.
    injection H2 as El2 Eis2. subst is2 l2. rewrite P1 in H3.
    injection H3 as El3 Eis3. subst is_ l3.
    split; [now split|]. now left.
Qed.

Lemma ReadData_untagged W b rest binary l :
  CuMatrixBase.NumRows W = output_dim_ l ->
  CuMatrixBase.NumCols W = input_dim_ l ->
  CuVectorBase.Dim b = output_dim_ l ->
  ReadData (MatrixItem W :: VectorItem b :: rest) binary l
  = Ok (set_bias_ b (set_linearity_ W (set_adaBuffersInitialized false l)),
        rest).
Proof.
  intros Hrows Hcols Hdim. unfold ReadData.
  cbn [Peek is_open_angle bind ReadMatrix ReadVector].
  members. rewrite Hrows, Hcols, Hdim, !Nat.eqb_refl. reflexivity.
Qed.

(** C5 (as amended): [ReadData] resets [adaBuffersInitialized] first, so
    that after it returns the flag tells whether the stream carried an
    accumulator block, whatever the flag was before; a leading tag that is
    present is consumed and its value applied; when the tag LearnRateCoef,
    or MaxGrad, is absent the field keeps the value it had before the call,
    which is the default 1.0, or 0.0, for a freshly constructed layer. *)
Theorem ReadData_optional_tags :
  forall (is_ : stream) (binary : bool) (l l' : AffineTransform)
         (rest : stream),
    ReadData is_ binary l = Ok (l', rest) ->
    let after_coef := skip_tagged_value "<LearnRateCoef>" is_ in
    adaBuffersInitialized l'
    = starts_with_tag "<AffineAccus>" (accumulator_position is_) /\
    (forall x r, is_ = Token "<LearnRateCoef>" :: Basic x :: r ->
                 learn_rate_coef_ l' = x) /\
    (forall y r, after_coef = Token "<MaxGrad>" :: Basic y :: r ->
                 max_grad_ l' = y) /\
    (starts_with_tag "<LearnRateCoef>" is_ = false ->
     learn_rate_coef_ l' = learn_rate_coef_ l) /\
    (starts_with_tag "<MaxGrad>" after_coef = false ->
     max_grad_ l' = max_grad_ l) /\
    (forall dim_in dim_out opts,
        l = AffineTransform_ctor dim_in dim_out opts ->
        (starts_with_tag "<LearnRateCoef>" is_ = false ->
         learn_rate_coef_ l' = 1) /\
        (starts_with_tag "<MaxGrad>" after_coef = false ->
         max_grad_ l' = 0)).
Proof.
  intros is_ binary l l' rest H.
  destruct (ReadData_inv _ _ _ H) as (W & b & _ & Hcases). cbv zeta in Hcases.
  destruct Hcases as [(-> & ->) | [(x & -> & ->) | [(x & y & -> & ->)
                     | (x & y & A & a & -> & ->)]]];
    cbv zeta; unfold accumulator_position;
    cbn [skip_tagged_value starts_with_tag String.eqb Ascii.eqb Bool.eqb];
    members.
  all: repeat match goal with |- _ /\ _ => split end;
    try reflexivity; try discriminate;
    try (intros ? ? [= ]; subst; reflexivity);
    try (intros ? ? ? ->; split; intros; try reflexivity; discriminate).
Qed.

(* ================================================================== *)
(** ** Model combination *)

Lemma Scale_frame scale l : same_besides_parameters l (Scale scale l).
Proof. destruct l; unfold Scale; members; repeat split. Qed.

Lemma Add_AffineTransform scale other l :
  Add scale (AffineTransformLayer other) l
  = Ok (set_bias_ (CuVectorBase.AddVec scale (bias_ other) (bias_ l))
          (set_linearity_
             (CuMatrixBase.AddMat scale (linearity_ other) (linearity_ l)) l)).
Proof. destruct l; reflexivity. Qed.

Lemma Add_frame scale layer_other l l' :
  Add scale layer_other l = Ok l' -> same_besides_parameters l l'.
Proof.
  destruct layer_other as [other|]; [|discriminate].
  rewrite Add_AffineTransform. intros [= <-].
  destruct l; members; repeat split.
Qed.

(** C4: with a layer that is no [AffineTransform], [Add] reads members
    through the null pointer the cast returned: no type mismatch is
    raised, the behaviour is undefined.  With an [AffineTransform] it
    returns, having added [scale * other.linearity_] to the weight matrix
    and [scale * other.bias_] to the bias. *)
Theorem Add_dynamic_cast :
  forall (scale : BaseFloat) (l : AffineTransform),
    Add scale OtherTrainableLayer l = Fault UndefinedBehaviour /\
    forall other : AffineTransform,
    exists l',
      Add scale (AffineTransformLayer other) l = Ok l' /\
      linearity_ l'
      = CuMatrixBase.AddMat scale (linearity_ other) (linearity_ l) /\
      bias_ l' = CuVectorBase.AddVec scale (bias_ other) (bias_ l).
Proof.
  intros scale l. split; [reflexivity|].
  intros other. eexists. split; [apply Add_AffineTransform|].
  destruct l; split; reflexivity.
Qed.

(** C10: [Scale] and [Add] change the weight matrix and the bias vector
    only: the gradient buffers, the accumulators and scale buffers,
    [learn_rate_coef_], [max_grad_] and [adaBuffersInitialized] are after
    the call what they were before it.  [Scale] always returns, and so does
    [Add] with an [AffineTransform]. *)
Theorem Scale_Add_frame :
  forall (scale : BaseFloat) (l : AffineTransform),
    same_besides_parameters l (Scale scale l) /\
    (forall layer_other l',
        Add scale layer_other l = Ok l' -> same_besides_parameters l l') /\
    (forall other, exists l',
          Add scale (AffineTransformLayer other) l = Ok l' /\
          same_besides_parameters l l').
Proof.
  intros scale l. split; [apply Scale_frame|]. split.
  - intros layer_other l'. apply Add_frame.
  - intros other. eexists. split; [apply Add_AffineTransform|].
    eapply Add_frame. apply Add_AffineTransform.
Qed.

(* ================================================================== *)
(** ** The presence flag over the life of a layer *)

Lemma InitData_flag is_ dl db l l' :
  InitData is_ dl db l = Ok l' ->
  adaBuffersInitialized l' = adaBuffersInitialized l /\
  ada_allocations l' = ada_allocations l.
Proof.
  unfold InitData. intros H. apply bind_inv in H as (o & _ & H).
  injection H as <-. destruct l; split; reflexivity.
Qed.

Lemma ReadData_flag is_ binary l l' rest :
  ReadData is_ binary l = Ok (l', rest) ->
  adaBuffersInitialized l'
  = starts_with_tag "<AffineAccus>" (accumulator_position is_) /\
  ada_allocations l'
  = if adaBuffersInitialized l' then S (ada_allocations l)
    else ada_allocations l.
Proof.
  intros H.
  destruct (ReadData_inv _ _ _ H) as (W & b & _ & Hcases). cbv zeta in Hcases.
  destruct Hcases as [(-> & ->) | [(x & -> & ->) | [(x & y & -> & ->)
                     | (x & y & A & a & -> & ->)]]];
    destruct l; split; reflexivity.
Qed.

Section Lifetime.
Variables (epsilon rmsprop_decay : BaseFloat).

Lemma apply_operation_allocations o l l' :
  apply_operation epsilon rmsprop_decay o l = Ok l' ->
  (ada_allocations l <= ada_allocations l')%nat /\
  (adaBuffersInitialized l' = true ->
   adaBuffersInitialized l = true \/
   (ada_allocations l < ada_allocations l')%nat).
Proof.
  destruct o as [is_ dl db | is_ binary | input diff rule | scale
                 | scale other]; cbn [apply_operation]; intros H.
  - apply InitData_flag in H as [-> ->]. split; [lia | now left].
  - apply bind_inv in H as ([l1 rest] & H & E). injection E as <-.
    apply ReadData_flag in H as [_ ->].
    destruct (adaBuffersInitialized l1); split; try lia; discriminate.
  - injection H as <-. rewrite Update_flag, Update_allocations.
    destruct (adaBuffersInitialized l), (is_adaptive rule); cbn;
      split; try lia; auto; discriminate.
  - injection H as <-.
    destruct (Scale_frame scale l) as (_&_&_&_&_&_&_&_&_&_&_& -> & ->).
    split; [lia | now left].
  - destruct (Add_frame _ _ _ H) as (_&_&_&_&_&_&_&_&_&_&_& -> & ->).
    split; [lia | now left].
Qed.

Lemma reachable_flag_allocated l :
  reachable epsilon rmsprop_decay l ->
  adaBuffersInitialized l = true -> (0 < ada_allocations l)%nat.
Proof.
  induction 1 as [dim_in dim_out opts | l o l' Hreach IH Hstep].
  - discriminate.
  - intros Hflag.
    destruct (apply_operation_allocations _ _ Hstep) as [Hle Hback].
    destruct (Hback Hflag) as [Hold | Hlt]; [|lia].
    specialize (IH Hold). lia.
Qed.

(** What a call does to the flag: [ReadData] clears it first, and an
    allocation sets it. *)
Lemma apply_operation_flag o l l' :
  apply_operation epsilon rmsprop_decay o l = Ok l' ->
  (ada_allocations l <= ada_allocations l')%nat /\
  adaBuffersInitialized l'
  = (if is_ReadData o then false else adaBuffersInitialized l)
    || (ada_allocations l <? ada_allocations l')%nat.
Proof.
  destruct o as [is_ dl db | is_ binary | input diff rule | scale
                 | scale other]; cbn [apply_operation is_ReadData]; intros H.
  - apply InitData_flag in H as [-> ->].
    rewrite Nat.ltb_irrefl, orb_false_r. split; [lia | reflexivity].
  - apply bind_inv in H as ([l1 rest] & H & E). injection E as <-.
    apply ReadData_flag in H as [_ ->].
    destruct (adaBuffersInitialized l1); cbn [orb].
    + split; [lia|]. symmetry. apply Nat.ltb_lt. lia.
    + split; [lia|]. now rewrite Nat.ltb_irrefl.
  - injection H as <-. rewrite Update_flag, Update_allocations.
    destruct (adaBuffersInitialized l), (is_adaptive rule);
      cbn [andb negb orb]; rewrite ?Nat.ltb_irrefl; split; try lia;
      try reflexivity.
    symmetry. apply Nat.ltb_lt. lia.
  - injection H as <-.
    destruct (Scale_frame scale l) as (_&_&_&_&_&_&_&_&_&_&_& -> & ->).
    rewrite Nat.ltb_irrefl, orb_false_r. split; [lia | reflexivity].
  - destruct (Add_frame _ _ _ H) as (_&_&_&_&_&_&_&_&_&_&_& -> & ->).
    rewrite Nat.ltb_irrefl, orb_false_r. split; [lia | reflexivity].
Qed.

Lemma reachable_since_reachable base l :
  reachable_since epsilon rmsprop_decay base l ->
  reachable epsilon rmsprop_decay l.
Proof.
  induction 1 as [dim_in dim_out opts | base l is_ binary l' _ IH Hstep
                  | base l o l' _ IH _ Hstep].
  - apply reachable_ctor.
  - eapply reachable_step; eassumption.
  - eapply reachable_step; eassumption.
Qed.

Lemma reachable_reachable_since l :
  reachable epsilon rmsprop_decay l ->
  exists base, reachable_since epsilon rmsprop_decay base l.
Proof.
  induction 1 as [dim_in dim_out opts | l o l' _ [base IH] Hstep].
  - exists 0%nat. apply reachable_since_ctor.
  - destruct (is_ReadData o) eqn:Ho.
    + destruct o; try discriminate.
      exists (ada_allocations l).
      eapply reachable_since_ReadData; eassumption.
    + exists base. eapply reachable_since_step; eassumption.
Qed.

Lemma reachable_since_flag base l :
  reachable_since epsilon rmsprop_decay base l ->
  (base <= ada_allocations l)%nat /\
  adaBuffersInitialized l = (base <? ada_allocations l)%nat.
Proof.
  induction 1 as [dim_in dim_out opts | base l is_ binary l' _ _ Hstep
                  | base l o l' _ [IHle IH] Ho Hstep].
  - split; [apply Nat.le_refl | reflexivity].
  - destruct (apply_operation_flag _ _ Hstep) as [Hle Hflag].
    split; [exact Hle | exact Hflag].
  - destruct (apply_operation_flag _ _ Hstep) as [Hle Hflag].
    split; [lia|]. rewrite Hflag, Ho, IH.
    destruct (Nat.ltb_spec base (ada_allocations l)),
      (Nat.ltb_spec (ada_allocations l) (ada_allocations l')),
      (Nat.ltb_spec base (ada_allocations l')); cbn [orb]; trivial; lia.
Qed.

End Lifetime.

(** C3 (as amended): in every state a layer reaches by construction,
    [InitData], [ReadData], [Update], [Scale] and [Add], the flag
    [adaBuffersInitialized] is true if and only if the adaptive buffers
    have been allocated at least once since the most recent [ReadData]
    call began, or since construction when [ReadData] was never called; a
    set flag so tells that the buffers have been allocated.  A call that
    allocates the buffers leaves the flag set.  [InitData], [Update],
    [Scale] and [Add] never clear a set flag.  [ReadData] resets it: after
    [ReadData] the flag is set exactly when the stream carried an
    accumulator block, which is when that call allocated the buffers. *)
Theorem adaBuffersInitialized_lifetime :
  forall (epsilon rmsprop_decay : BaseFloat) (l : AffineTransform),
    reachable epsilon rmsprop_decay l ->
    (exists base, reachable_since epsilon rmsprop_decay base l) /\
    (forall base,
        reachable_since epsilon rmsprop_decay base l ->
        (adaBuffersInitialized l = true <-> (base < ada_allocations l)%nat)) /\
    (adaBuffersInitialized l = true -> (0 < ada_allocations l)%nat) /\
    forall (o : operation) (l' : AffineTransform),
      apply_operation epsilon rmsprop_decay o l = Ok l' ->
      (ada_allocations l <= ada_allocations l')%nat /\
      ((ada_allocations l < ada_allocations l')%nat ->
       adaBuffersInitialized l' = true) /\
      match o with
      | OpReadData is_ _ =>
          adaBuffersInitialized l'
          = starts_with_tag "<AffineAccus>" (accumulator_position is_) /\
          (adaBuffersInitialized l' = true <->
           (ada_allocations l < ada_allocations l')%nat)
      | _ =>
          adaBuffersInitialized l' = true <->
          adaBuffersInitialized l = true \/
          (ada_allocations l < ada_allocations l')%nat
      end.
Proof.
  intros epsilon rmsprop_decay l Hreach.
  split; [now apply reachable_reachable_since|].
  split.
  { intros base Hsince.
    destruct (reachable_since_flag Hsince) as [_ ->]. apply Nat.ltb_lt. }
  split; [now apply reachable_flag_allocated with (1 := Hreach)|].
  intros o l' Hstep.
  destruct (apply_operation_flag _ _ _ _ Hstep) as [Hle Hflag].
  split; [exact Hle|]. split.
  { intros Hlt. rewrite Hflag. apply Nat.ltb_lt in Hlt. rewrite Hlt.
    apply orb_true_r. }
  assert (Hiff : adaBuffersInitialized l' = true <->
                 (if is_ReadData o then false else adaBuffersInitialized l)
                 = true \/ (ada_allocations l < ada_allocations l')%nat).
  { rewrite Hflag, orb_true_iff, Nat.ltb_lt. reflexivity. }
  destruct o as [is_ dl db | is_ binary | input diff rule | scale
                 | scale other]; cbn [is_ReadData] in Hiff; try exact Hiff.
  cbn [apply_operation] in Hstep.
  apply bind_inv in Hstep as ([l1 rest] & H & E). injection E as <-.
  apply ReadData_flag in H as [Htag _].
  split; [exact Htag|]. rewrite Hiff. split; [|now right].
  intros [Hfalse | Hlt]; [discriminate | exact Hlt].
Qed.

(* ================================================================== *)
(** ** The step [Update] applies to the parameters *)

Lemma imap_at f v j :
  (j < length v)%nat ->
  CuVectorBase.at_ (imap f v) j = f j (CuVectorBase.at_ v j).
Proof. intros Hj. unfold CuVectorBase.at_. now rewrite (nth_imap f v 0 0 Hj). Qed.

Section StepFacts.
Variables (epsilon rmsprop_decay : BaseFloat).

Local Abbreviation Update' := (Update epsilon rmsprop_decay).

Lemma Update_sgd_step input diff l :
  let l' := Update' input diff sgd_update l in
  let lr := learn_rate (opts_ l) * learn_rate_coef_ l in
  (forall i j,
      (i < CuMatrixBase.NumRows (linearity_ l))%nat ->
      (j < length (nth i (linearity_ l) []))%nat ->
      CuMatrixBase.at_ (linearity_ l') i j
      = CuMatrixBase.at_ (linearity_ l) i j
        - lr * CuMatrixBase.at_ (linearity_corr_ l') i j) /\
  (forall j,
      (j < CuVectorBase.Dim (bias_ l))%nat ->
      CuVectorBase.at_ (bias_ l') j
      = CuVectorBase.at_ (bias_ l) j - lr * CuVectorBase.at_ (bias_corr_ l') j).
Proof.
  cbv zeta. destruct (Update_sgd_parameters epsilon rmsprop_decay input diff l)
    as [-> ->].
  split.
  - intros i j Hi Hj. unfold CuMatrixBase.AddMat.
    rewrite imap2_at by assumption. lra.
  - intros j Hj. unfold CuVectorBase.AddVec.
    rewrite imap_at by assumption. lra.
Qed.

Lemma Update_adaptive_step input diff rule l :
  is_adaptive rule = true ->
  let l' := Update' input diff rule l in
  let lr := learn_rate (opts_ l) in
  (forall i j,
      (i < CuMatrixBase.NumRows (linearity_ l))%nat ->
      (j < length (nth i (linearity_ l) []))%nat ->
      CuMatrixBase.at_ (linearity_ l') i j
      = CuMatrixBase.at_ (linearity_ l) i j
        - lr * (CuMatrixBase.at_ (linearity_corr_accu_scale l') i j
                * CuMatrixBase.at_ (linearity_corr_ l') i j)) /\
  (forall j,
      (j < CuVectorBase.Dim (bias_ l))%nat ->
      CuVectorBase.at_ (bias_ l') j
      = CuVectorBase.at_ (bias_ l) j
        - lr * (CuVectorBase.at_ (bias_corr_accu_scale l') j
                * CuVectorBase.at_ (bias_corr_ l') j)).
Proof.
  intros Hrule. cbv zeta.
  destruct (Update_adaptive_parameters epsilon rmsprop_decay input diff
                                       rule l Hrule) as [-> ->].
  split.
  - intros i j Hi Hj. unfold CuMatrixBase.AddMatMatElements.
    rewrite imap2_at by assumption. lra.
  - intros j Hj. unfold CuVectorBase.AddVecVec.
    rewrite imap_at by assumption. lra.
Qed.

Lemma Update_adaptive_scale input diff rule l :
  is_adaptive rule = true ->
  let l' := Update' input diff rule l in
  (forall i j,
      (i < CuMatrixBase.NumRows (linearity_corr_accu_scale l'))%nat ->
      (j < length (nth i (linearity_corr_accu_scale l') []))%nat ->
      CuMatrixBase.at_ (linearity_corr_accu_scale l') i j
      = 1 / sqrt (CuMatrixBase.at_ (linearity_corr_accu l') i j + epsilon)) /\
  (forall j,
      (j < CuVectorBase.Dim (bias_corr_accu_scale l'))%nat ->
      CuVectorBase.at_ (bias_corr_accu_scale l') j
      = 1 / sqrt (CuVectorBase.at_ (bias_corr_accu l') j + epsilon)).
Proof.
  intros Hrule. cbv zeta.
  destruct (Update_adaptive_buffers epsilon rmsprop_decay input diff
                                    rule l Hrule) as (_ & _ & Hs & Hsb).
  cbv zeta in Hs, Hsb. split.
  - intros i j. rewrite Hs. unfold AdagradScaleCompute, CuMatrixBase.NumRows.
    rewrite imap2_length. intros Hi. rewrite imap2_row by exact Hi.
    rewrite length_imap. intros Hj. now rewrite imap2_at.
  - intros j. rewrite Hsb. unfold AdagradScaleComputeVec, CuVectorBase.Dim.
    rewrite length_imap. intros Hj. now rewrite imap_at.
Qed.

End StepFacts.

(** The step of [Update], rule by rule.  Under rule sgd it is scaled by
    [base_lr * learn_rate_coef]:
    [weight -= base_lr * learn_rate_coef * linearity_corr], and likewise for
    the bias.  Under rule adagrad or rmsprop it is scaled by [base_lr]
    alone, [learn_rate_coef_] is not read:
    [weight -= base_lr * scale .* linearity_corr], and likewise for the
    bias, where scale is the elementwise [1 / sqrt(accu + epsilon)]. *)
Theorem Update_step_scaling :
  forall (epsilon rmsprop_decay : BaseFloat) (input diff : CuMatrix)
         (rule : UpdateRule) (l : AffineTransform),
    let l' := Update epsilon rmsprop_decay input diff rule l in
    let base_lr := learn_rate (opts_ l) in
    (rule = sgd_update ->
     (forall i j,
         (i < CuMatrixBase.NumRows (linearity_ l))%nat ->
         (j < length (nth i (linearity_ l) []))%nat ->
         CuMatrixBase.at_ (linearity_ l') i j
         = CuMatrixBase.at_ (linearity_ l) i j
           - base_lr * learn_rate_coef_ l
             * CuMatrixBase.at_ (linearity_corr_ l') i j) /\
     (forall j,
         (j < CuVectorBase.Dim (bias_ l))%nat ->
         CuVectorBase.at_ (bias_ l') j
         = CuVectorBase.at_ (bias_ l) j
           - base_lr * learn_rate_coef_ l
             * CuVectorBase.at_ (bias_corr_ l') j)) /\
    (is_adaptive rule = true ->
     (forall i j,
         (i < CuMatrixBase.NumRows (linearity_ l))%nat ->
         (j < length (nth i (linearity_ l) []))%nat ->
         CuMatrixBase.at_ (linearity_ l') i j
         = CuMatrixBase.at_ (linearity_ l) i j
           - base_lr
             * (CuMatrixBase.at_ (linearity_corr_accu_scale l') i j
                * CuMatrixBase.at_ (linearity_corr_ l') i j)) /\
     (forall j,
         (j < CuVectorBase.Dim (bias_ l))%nat ->
         CuVectorBase.at_ (bias_ l') j
         = CuVectorBase.at_ (bias_ l) j
           - base_lr
             * (CuVectorBase.at_ (bias_corr_accu_scale l') j
                * CuVectorBase.at_ (bias_corr_ l') j)) /\
     (forall i j,
         (i < CuMatrixBase.NumRows (linearity_corr_accu_scale l'))%nat ->
         (j < length (nth i (linearity_corr_accu_scale l') []))%nat ->
         CuMatrixBase.at_ (linearity_corr_accu_scale l') i j
         = 1 / sqrt (CuMatrixBase.at_ (linearity_corr_accu l') i j + epsilon)) /\
     (forall j,
         (j < CuVectorBase.Dim (bias_corr_accu_scale l'))%nat ->
         CuVectorBase.at_ (bias_corr_accu_scale l') j
         = 1 / sqrt (CuVectorBase.at_ (bias_corr_accu l') j + epsilon))).
Proof.
  intros epsilon rmsprop_decay input diff rule l l' base_lr.
  subst l' base_lr. split.
  - intros ->. apply Update_sgd_step.
  - intros Hrule.
    destruct (Update_adaptive_step epsilon rmsprop_decay input diff rule l
                                   Hrule) as [HW Hb].
    destruct (Update_adaptive_scale epsilon rmsprop_decay input diff rule l
                                    Hrule) as [Hs Hsb].
    repeat split; assumption.
Qed.

(* ================================================================== *)
(** ** The dimensions of the parameters over the life of a layer *)

Lemma NumCols_imap2 f m :
  CuMatrixBase.NumCols (CuMatrixBase.imap2 f m) = CuMatrixBase.NumCols m.
Proof. destruct m as [|row m]; [reflexivity|]. cbn. apply length_imap_from. Qed.

Lemma NumCols_Zero rows cols :
  (0 < rows)%nat -> CuMatrixBase.NumCols (CuMatrixBase.Zero rows cols) = cols.
Proof. destruct rows; [lia|]. intros _. cbn. apply repeat_length. Qed.

Section Dimensions.
Variables (epsilon rmsprop_decay : BaseFloat).

Lemma Update_well_dimensioned input diff rule l :
  well_dimensioned l ->
  well_dimensioned (Update epsilon rmsprop_decay input diff rule l).
Proof.
  intros (Hrows & Hcols & Hdim). unfold well_dimensioned.
  destruct (Update_scalars epsilon rmsprop_decay input diff rule l)
    as (_ & _ & -> & -> & _).
  assert (Hp :
    exists f g,
      linearity_ (Update epsilon rmsprop_decay input diff rule l)
      = CuMatrixBase.imap2 f (linearity_ l) /\
      bias_ (Update epsilon rmsprop_decay input diff rule l)
      = imap g (bias_ l)).
  { destruct rule.
    - destruct (Update_sgd_parameters epsilon rmsprop_decay input diff l)
        as [-> ->]. eexists. eexists. split; reflexivity.
    - destruct (Update_adaptive_parameters epsilon rmsprop_decay input diff
                  adagrad_update l eq_refl) as [-> ->].
      eexists. eexists. split; reflexivity.
    - destruct (Update_adaptive_parameters epsilon rmsprop_decay input diff
                  rmsprop_update l eq_refl) as [-> ->].
      eexists. eexists. split; reflexivity. }
  destruct Hp as (f & g & -> & ->).
  unfold CuMatrixBase.NumRows, CuVectorBase.Dim in *.
  now rewrite imap2_length, NumCols_imap2, length_imap.
Qed.

Lemma apply_operation_dimensions o l l' :
  apply_operation epsilon rmsprop_decay o l = Ok l' ->
  input_dim_ l' = input_dim_ l /\ output_dim_ l' = output_dim_ l.
Proof.
  destruct o as [is_ dl db | is_ binary | input diff rule | scale
                 | scale other]; cbn [apply_operation]; intros H.
  - unfold InitData in H. apply bind_inv in H as (o & _ & H).
    injection H as <-. destruct l; split; reflexivity.
  - apply bind_inv in H as ([l1 rest] & H & E). injection E as <-.
    destruct (ReadData_inv _ _ _ H) as (W & b & _ & Hcases).
    cbv zeta in Hcases.
    destruct Hcases as [(_ & ->) | [(x & _ & ->) | [(x & y & _ & ->)
                       | (x & y & A & a & _ & ->)]]];
      destruct l; split; reflexivity.
  - injection H as <-.
    now destruct (Update_scalars epsilon rmsprop_decay input diff rule l)
      as (_ & _ & -> & -> & _).
  - injection H as <-.
    now destruct (Scale_frame scale l) as (-> & -> & _).
  - now destruct (Add_frame _ _ _ H) as (-> & -> & _).
Qed.

(** X8: in every state a layer with at least one output reaches, the
    weight matrix and the bias have the declared dimensions. *)
Lemma reachable_well_dimensioned l :
  reachable epsilon rmsprop_decay l ->
  (0 < output_dim_ l)%nat -> well_dimensioned l.
Proof.
  induction 1 as [dim_in dim_out opts | l o l' Hreach IH Hstep].
  - cbn. intros Hpos. unfold well_dimensioned. cbn.
    unfold CuMatrixBase.NumRows, CuVectorBase.Dim, CuMatrixBase.Zero,
      CuVectorBase.Zero.
    rewrite !repeat_length. repeat split.
    now apply NumCols_Zero.
  - intros Hpos.
    destruct (apply_operation_dimensions _ _ Hstep) as [Hin Hout].
    rewrite Hout in Hpos. specialize (IH Hpos).
    destruct o as [is_ dl db | is_ binary | input diff rule | scale
                   | scale other]; cbn [apply_operation] in Hstep.
    + unfold InitData in Hstep. apply bind_inv in Hstep as (o & _ & H).
      injection H as <-. unfold well_dimensioned. members.
      unfold InitRandUniformMat, InitRandUniformVec,
        CuMatrixBase.NumRows, CuVectorBase.Dim.
      rewrite imap2_length, NumCols_imap2, length_imap.
      unfold CuMatrixBase.Zero, CuVectorBase.Zero. rewrite !repeat_length.
      repeat split. now apply NumCols_Zero.
    + apply bind_inv in Hstep as ([l1 rest] & H & E). injection E as <-.
      destruct (ReadData_inv _ _ _ H) as (W & b & Hdims & Hcases).
      cbv zeta in Hcases. unfold well_dimensioned. rewrite Hin, Hout.
      destruct Hcases as [(_ & ->) | [(x & _ & ->) | [(x & y & _ & ->)
                         | (x & y & A & a & _ & ->)]]];
        exact Hdims.
    + injection Hstep as <-. now apply Update_well_dimensioned.
    + injection Hstep as <-. destruct IH as (Hrows & Hcols & Hdim).
      unfold well_dimensioned, Scale. members.
      unfold CuMatrixBase.Scale, CuVectorBase.Scale, CuMatrixBase.NumRows,
        CuVectorBase.Dim in *.
      now rewrite NumCols_map_map, !length_map.
    + destruct other as [other|]; [|discriminate].
      rewrite Add_AffineTransform in Hstep. injection Hstep as <-.
      destruct IH as (Hrows & Hcols & Hdim).
      unfold well_dimensioned. members.
      unfold CuMatrixBase.AddMat, CuVectorBase.AddVec, CuMatrixBase.NumRows,
        CuVectorBase.Dim in *.
      now rewrite imap2_length, NumCols_imap2, length_imap.
Qed.

End Dimensions.

(* ================================================================== *)
(** ** The properties at concrete inputs *)

(** The gradient the scalar layer accumulates from input 1 and output
    gradient 1, with no momentum and no clipping, is 1. *)
Lemma scalar_layer_gradient coef rule :
  CuMatrixBase.at_
    (linearity_corr_
       (Update example_epsilon example_decay [[1]] [[1]] rule
               (scalar_layer coef 0))) 0 0 = 1.
Proof.
  rewrite Update_linearity_corr. unfold clipped_linearity_corr.
  cbn [max_grad_ scalar_layer set_max_grad_].
  destruct (Rlt_dec 0 0) as [H|_]; [lra|].
  cbv [blended_linearity_corr CuMatrixBase.AddMatMat CuMatrixBase.imap2 imap
       imap_from scalar_layer AffineTransform_ctor CuMatrixBase.Zero repeat
       set_max_grad_ set_learn_rate_coef_ linearity_corr_ opts_ momentum
       example_opts CuMatrixBase.at_ nth sum_upto seq fold_right
       CuMatrixBase.op_cols CuMatrixBase.op_at CuMatrixBase.NumRows length
       input_dim_ output_dim_].
  lra.
Qed.

(** Under adagrad the scale the scalar layer computes in its first call is
    positive. *)
Lemma scalar_layer_scale coef :
  0 < CuMatrixBase.at_
        (linearity_corr_accu_scale
           (Update example_epsilon example_decay [[1]] [[1]] adagrad_update
                   (scalar_layer coef 0))) 0 0.
Proof.
  destruct (Update_adaptive_buffers example_epsilon example_decay [[1]] [[1]]
              adagrad_update (scalar_layer coef 0) eq_refl)
    as (Ha & _ & Hs & _).
  cbv zeta in Ha, Hs. rewrite Hs, Ha.
  set (c := linearity_corr_ _).
  assert (Hc : CuMatrixBase.at_ c 0 0 = 1) by apply scalar_layer_gradient.
  cbv [AdagradScaleCompute AccuUpdate AdagradAccuUpdate UpdateRule_eqb
       CuMatrixBase.imap2 imap imap_from scalar_layer AffineTransform_ctor
       CuMatrixBase.Zero repeat negb adaBuffersInitialized
       set_max_grad_ set_learn_rate_coef_ input_dim_ output_dim_].
  cbv [CuMatrixBase.at_ nth] in Hc |- *. rewrite Hc.
  unfold example_epsilon.
  apply Rdiv_lt_0_compat; [lra|]. apply sqrt_lt_R0. lra.
Qed.

(** C1: the step of an adagrad call is not scaled by [learn_rate_coef].
    On the layer with one input and one output, [learn_rate_coef = 2] and
    base learning rate 1, after [Update] with input 1 and output gradient 1
    the weight is not [weight - base_lr * learn_rate_coef * scale *
    linearity_corr]: the adaptive branch steps by [base_lr] alone, where
    the sgd branch multiplies by [learn_rate_coef_]. *)
Theorem Update_adagrad_ignores_learn_rate_coef :
  let l := scalar_layer 2 0 in
  let l' := Update example_epsilon example_decay [[1]] [[1]] adagrad_update l in
  let step := CuMatrixBase.at_ (linearity_corr_accu_scale l') 0 0
              * CuMatrixBase.at_ (linearity_corr_ l') 0 0 in
  learn_rate_coef_ l = 2 /\
  CuMatrixBase.at_ (linearity_ l') 0 0
  = CuMatrixBase.at_ (linearity_ l) 0 0 - learn_rate (opts_ l) * step /\
  CuMatrixBase.at_ (linearity_ l') 0 0
  <> CuMatrixBase.at_ (linearity_ l) 0 0
     - learn_rate (opts_ l) * learn_rate_coef_ l * step.
Proof.
  cbv zeta. split; [reflexivity|].
  destruct (Update_adaptive_step example_epsilon example_decay [[1]] [[1]]
              adagrad_update (scalar_layer 2 0) eq_refl) as [HW _].
  cbv zeta in HW. rewrite (HW 0%nat 0%nat) by (simpl; lia).
  split; [reflexivity|].
  rewrite scalar_layer_gradient.
  pose proof (scalar_layer_scale 2) as Hs.
  cbn [scalar_layer set_max_grad_ set_learn_rate_coef_ AffineTransform_ctor
       opts_ learn_rate learn_rate_coef_ example_opts] in *.
  lra.
Qed.



Lemma adaBuffersInitialized_lifetime_witness :
  let l0 := AffineTransform_ctor 1 1 example_opts in
  let l1 := Update example_epsilon example_decay [[1]] [[1]] adagrad_update l0 in
  reachable_since example_epsilon example_decay 0 l1 /\
  adaBuffersInitialized l1 = true /\
  (adaBuffersInitialized l1 = true <-> (0 < ada_allocations l1)%nat) /\
  (0 < ada_allocations l1)%nat.
Proof.
  cbv zeta.
  assert (Hsince : reachable_since example_epsilon example_decay 0
                     (Update example_epsilon example_decay [[1]] [[1]]
                             adagrad_update
                             (AffineTransform_ctor 1 1 example_opts))).
  { apply reachable_since_step
      with (l := AffineTransform_ctor 1 1 example_opts)
           (o := OpUpdate [[1]] [[1]] adagrad_update).
    - apply reachable_since_ctor.
    - reflexivity.
    - reflexivity. }
  assert (Hreach : reachable example_epsilon example_decay
                     (Update example_epsilon example_decay [[1]] [[1]]
                             adagrad_update
                             (AffineTransform_ctor 1 1 example_opts))).
  { apply reachable_step
      with (l := AffineTransform_ctor 1 1 example_opts)
           (o := OpUpdate [[1]] [[1]] adagrad_update).
    - apply reachable_ctor.
    - reflexivity. }
  destruct (adaBuffersInitialized_lifetime Hreach)
    as (_ & Hiff & Hallocated & _).
  pose proof (Update_flag example_epsilon example_decay [[1]] [[1]]
                          adagrad_update
                          (AffineTransform_ctor 1 1 example_opts)) as Hflag.
  cbn [is_adaptive] in Hflag. rewrite orb_true_r in Hflag.
  split; [exact Hsince|]. split; [exact Hflag|].
  split; [exact (Hiff 0%nat Hsince)|]. exact (Hallocated Hflag).
Defined.

(** A layer that allocated its buffers in an adagrad update and then reads
    a stream without accumulator block: the flag is cleared although the
    buffers have been allocated. *)
Lemma ReadData_clears_flag_after_allocation :
  let l0 := AffineTransform_ctor 1 1 example_opts in
  let l1 := Update example_epsilon example_decay [[1]] [[1]] adagrad_update l0 in
  exists l2,
    reachable example_epsilon example_decay l1 /\
    apply_operation example_epsilon example_decay
      (OpReadData [MatrixItem [[0]]; VectorItem [0]] false) l1 = Ok l2 /\
    reachable example_epsilon example_decay l2 /\
    adaBuffersInitialized l1 = true /\
    adaBuffersInitialized l2 = false /\
    ~ (adaBuffersInitialized l2 = true <-> (0 < ada_allocations l2)%nat).
Proof.
  cbv zeta.
  set (l0 := AffineTransform_ctor 1 1 example_opts).
  assert (Hr1 : reachable example_epsilon example_decay
                  (Update example_epsilon example_decay [[1]] [[1]]
                          adagrad_update l0)).
  { apply reachable_step with (l := l0)
                              (o := OpUpdate [[1]] [[1]] adagrad_update).
    - apply reachable_ctor.
    - reflexivity. }
  pose proof (Update_flag example_epsilon example_decay [[1]] [[1]]
                          adagrad_update l0) as Hflag.
  pose proof (Update_allocations example_epsilon example_decay [[1]] [[1]]
                                 adagrad_update l0) as Hallocs.
  destruct (Update_scalars example_epsilon example_decay [[1]] [[1]]
                           adagrad_update l0) as (_ & _ & Hin & Hout & _).
  revert Hr1 Hflag Hallocs Hin Hout.
  generalize (Update example_epsilon example_decay [[1]] [[1]]
                     adagrad_update l0).
  intros l1 Hr1 Hflag Hallocs Hin Hout.
  cbn in Hflag, Hallocs, Hin, Hout.
  assert (Hstep : apply_operation example_epsilon example_decay
                    (OpReadData [MatrixItem [[0]]; VectorItem [0]] false) l1
                  = Ok (set_bias_ [0]
                          (set_linearity_ [[0]]
                             (set_adaBuffersInitialized false l1)))).
  { cbn [apply_operation].
    rewrite ReadData_untagged; [reflexivity | | |];
      cbn [CuMatrixBase.NumRows CuMatrixBase.NumCols CuVectorBase.Dim length];
      congruence. }
  eexists. split; [exact Hr1|]. split; [exact Hstep|].
  split; [exact (reachable_step _ Hr1 Hstep)|].
  split; [exact Hflag|]. split; [reflexivity|].
  cbn [adaBuffersInitialized ada_allocations set_bias_ set_linearity_
       set_adaBuffersInitialized].
  rewrite Hallocs. intros [_ H]. specialize (H Nat.lt_0_1).
  discriminate H.
Qed.

Lemma ReadData_optional_tags_witness :
  let l := scalar_layer (1 / 2) 3 in
  let l' := set_bias_ [0]
              (set_linearity_ [[0]] (set_adaBuffersInitialized false l)) in
  ReadData [MatrixItem [[0]]; VectorItem [0]] false l = Ok (l', []) /\
  adaBuffersInitialized l' = false /\
  learn_rate_coef_ l' = 1 / 2 /\
  max_grad_ l' = 3.
Proof.
  cbv zeta.
  assert (H : ReadData [MatrixItem [[0]]; VectorItem [0]] false
                       (scalar_layer (1 / 2) 3)
              = Ok (set_bias_ [0]
                      (set_linearity_ [[0]]
                         (set_adaBuffersInitialized false
                            (scalar_layer (1 / 2) 3))), []))
    by (apply ReadData_untagged; reflexivity).
  split; [exact H|].
  destruct (ReadData_optional_tags _ _ _ H) as (Hf & _ & _ & Hc & Hg & _).
  split; [exact Hf|]. split; [exact (Hc eq_refl) | exact (Hg eq_refl)].
Defined.

(** A layer configured with a learning-rate coefficient of 1/2 reads a
    stream without LearnRateCoef tag: the coefficient stays 1/2, it is not
    the default 1. *)
Lemma ReadData_keeps_configured_coef :
  exists l0 l1,
    InitData [Token "<LearnRateCoef>"; Basic (1 / 2)] [] []
             (AffineTransform_ctor 1 1 example_opts) = Ok l0 /\
    starts_with_tag "<LearnRateCoef>" [MatrixItem [[0]]; VectorItem [0]]
    = false /\
    ReadData [MatrixItem [[0]]; VectorItem [0]] false l0 = Ok (l1, []) /\
    learn_rate_coef_ l1 = 1 / 2 /\
    learn_rate_coef_ l1 <> 1.
Proof.
  destruct (InitData [Token "<LearnRateCoef>"; Basic (1 / 2)] [] []
                     (AffineTransform_ctor 1 1 example_opts))
    as [l0|f] eqn:Hinit; [|discriminate Hinit].
  assert (Hl0 : learn_rate_coef_ l0 = 1 / 2 /\ input_dim_ l0 = 1%nat
                /\ output_dim_ l0 = 1%nat).
  { injection Hinit as <-. repeat split. }
  destruct Hl0 as (Hcoef & Hin & Hout). clear Hinit.
  exists l0.
  exists (set_bias_ [0]
            (set_linearity_ [[0]] (set_adaBuffersInitialized false l0))).
  split; [reflexivity|]. split; [reflexivity|].
  split; [apply ReadData_untagged; cbn; congruence|].
  cbn [learn_rate_coef_ set_bias_ set_linearity_ set_adaBuffersInitialized].
  rewrite Hcoef. split; [reflexivity | lra].
Qed.

Lemma Update_lazy_allocation_witness :
  let l := AffineTransform_ctor 1 1 example_opts in
  let l' := Update example_epsilon example_decay [[1]] [[1]] rmsprop_update l in
  adaBuffersInitialized l' = true /\
  ada_allocations l' = 1%nat /\
  linearity_corr_accu l'
  = AccuUpdate example_decay rmsprop_update (CuMatrixBase.Zero 1 1)
               (linearity_corr_ l') /\
  bias_corr_accu l'
  = AccuUpdateVec example_decay rmsprop_update (CuVectorBase.Zero 1)
                  (bias_corr_ l').
Proof.
  apply (proj1 (proj2 (Update_lazy_allocation example_epsilon example_decay))
               [[1]] [[1]] rmsprop_update
               (AffineTransform_ctor 1 1 example_opts));
    reflexivity.
Defined.

Lemma PropagateFnc_affine_witness :
  fst (PropagateFnc ones_4x3 (CuMatrixBase.Zero 4 2) selector_layer)
  = selector_layer /\
  has_shape (snd (PropagateFnc ones_4x3 (CuMatrixBase.Zero 4 2) selector_layer))
            4 2 /\
  forall i, (i < 4)%nat ->
    nth i (snd (PropagateFnc ones_4x3 (CuMatrixBase.Zero 4 2) selector_layer)) []
    = affine_row (linearity_ selector_layer) (bias_ selector_layer)
                 (nth i ones_4x3 []).
Proof.
  apply (@PropagateFnc_affine selector_layer ones_4x3 (CuMatrixBase.Zero 4 2)
                              4);
    (split; [reflexivity | repeat constructor]).
Defined.

Lemma BackpropagateFnc_grad_witness :
  nth 0 (snd (BackpropagateFnc ones_4x3 [] grads_4x2 ones_4x3 selector_layer))
      []
  = grad_row (linearity_ selector_layer) 3 (nth 0 grads_4x2 []).
Proof.
  apply (@BackpropagateFnc_grad selector_layer ones_4x3 [] grads_4x2
                                ones_4x3 4);
    try (split; [reflexivity | repeat constructor]).
  lia.
Defined.

Lemma Update_clips_gradient_witness :
  let l' := Update example_epsilon example_decay [[5]] [[1]] sgd_update
                   (scalar_layer 1 1) in
  mat_within (- 1) 1 (linearity_corr_ l') /\
  vec_within (- 1) 1 (bias_corr_ l').
Proof.
  apply (proj1 (Update_clips_gradient example_epsilon example_decay
                  [[5]] [[1]] sgd_update (scalar_layer 1 1))).
  simpl. lra.
Defined.

Lemma Scale_Add_frame_witness :
  same_besides_parameters selector_layer
    (set_bias_
       (CuVectorBase.AddVec 1 (bias_ selector_layer) (bias_ selector_layer))
       (set_linearity_
          (CuMatrixBase.AddMat 1 (linearity_ selector_layer)
                               (linearity_ selector_layer))
          selector_layer)).
Proof.
  apply (proj1 (proj2 (Scale_Add_frame 1 selector_layer))
               (AffineTransformLayer selector_layer)).
  reflexivity.
Defined.

(** The scenario of the specification evaluates to rows [[1; 1]]. *)
Example PropagateFnc_selector_output :
  snd (PropagateFnc ones_4x3 (CuMatrixBase.Zero 4 2) selector_layer)
  = [[1; 1]; [1; 1]; [1; 1]; [1; 1]].
Proof.
  cbv [PropagateFnc snd selector_layer ones_4x3 set_linearity_
       AffineTransform_ctor linearity_ bias_ CuMatrixBase.Zero
       CuVectorBase.Zero repeat CuMatrixBase.AddVecToRows
       CuMatrixBase.AddMatMat CuMatrixBase.imap2 imap imap_from
       CuMatrixBase.op_cols CuMatrixBase.op_at CuMatrixBase.NumCols
       CuMatrixBase.at_ CuVectorBase.at_ nth sum_upto seq fold_right length
       input_dim_ output_dim_ opts_ linearity_corr_ bias_corr_
       linearity_corr_accu bias_corr_accu linearity_corr_accu_scale
       bias_corr_accu_scale learn_rate_coef_ max_grad_ adaBuffersInitialized
       ada_allocations].
  repeat (f_equal; try lra).
Qed.

(** One sgd step of the scalar layer with learning-rate coefficient 2:
    the gradient is 1 and the weight moves by [-1 * 2 * 1]. *)
Example Update_sgd_scalar_layer :
  CuMatrixBase.at_
    (linearity_ (Update example_epsilon example_decay [[1]] [[1]] sgd_update
                        (scalar_layer 2 0))) 0 0 = - 2.
Proof.
  destruct (Update_sgd_step example_epsilon example_decay [[1]] [[1]]
                            (scalar_layer 2 0)) as [HW _].
  cbv zeta in HW. rewrite (HW 0%nat 0%nat) by (simpl; lia).
  rewrite scalar_layer_gradient.
  cbv [scalar_layer set_max_grad_ set_learn_rate_coef_ AffineTransform_ctor
       opts_ learn_rate learn_rate_coef_ example_opts linearity_
       CuMatrixBase.Zero repeat CuMatrixBase.at_ nth].
  lra.
Qed.

(** An unrecognised option makes [InitData] raise. *)
Example InitData_unknown_token dl db l :
  InitData [Token "<ParamStddev>"; Basic 1] dl db l = Fault KaldiError.
Proof. reflexivity. Qed.

(** [ReadData] expects the optional tags in their order: a stream that
    starts with MaxGrad is refused. *)
Example ReadData_MaxGrad_first W b l :
  ReadData [Token "<MaxGrad>"; Basic 1; MatrixItem W; VectorItem b] false l
  = Fault KaldiError.
Proof. reflexivity. Qed.

(* ================================================================== *)
(** * Further properties of the layer *)

(** ** Configuration by [InitData] *)

Lemma config_stream_cons name x options :
  config_stream ((name, x) :: options)
  = Token name :: Basic x :: config_stream options.
Proof. reflexivity. Qed.

Lemma known_option_cases name :
  known_option name = true ->
  name = "<ParamRange>"%string \/ name = "<LearnRateCoef>"%string
  \/ name = "<MaxGrad>"%string.
Proof.
  unfold known_option. intros H.
  apply orb_true_iff in H as [H | H];
    [apply orb_true_iff in H as [H | H] |]; apply String.eqb_eq in H; auto.
Qed.

Lemma InitData_option_known name x o :
  known_option name = true ->
  InitData_option name x o
  = Ok (mkInitOptions
          (option_value "<ParamRange>" (opt_param_range o) [(name, x)])
          (option_value "<LearnRateCoef>" (opt_learn_rate_coef o) [(name, x)])
          (option_value "<MaxGrad>" (opt_max_grad o) [(name, x)])).
Proof.
  intros Hname.
  destruct (known_option_cases _ Hname) as [-> | [-> | ->]];
    destruct o; reflexivity.
Qed.

Lemma InitData_option_unknown name x o :
  known_option name = false -> InitData_option name x o = Fault KaldiError.
Proof.
  unfold known_option, InitData_option. intros H.
  destruct (String.eqb name "<ParamRange>"); [discriminate|].
  destruct (String.eqb name "<LearnRateCoef>"); [discriminate|].
  destruct (String.eqb name "<MaxGrad>"); [discriminate|].
  reflexivity.
Qed.

Lemma option_value_cons key d name x options :
  option_value key d ((name, x) :: options)
  = option_value key (option_value key d [(name, x)]) options.
Proof.
  unfold option_value. cbn [fold_left fst snd]. reflexivity.
Qed.

Lemma InitData_parse_cons name x options o :
  InitData_parse (config_stream ((name, x) :: options)) o
  = (o' <- InitData_option name x o ;;
     match options with
     | [] => Ok o'
     | _ :: _ => InitData_parse (config_stream options) o'
     end).
Proof.
  rewrite config_stream_cons. cbn [InitData_parse].
  destruct (InitData_option name x o) as [o'|f]; cbn [bind]; [|reflexivity].
  destruct options as [|[n y] options]; reflexivity.
Qed.

Lemma InitData_parse_known options :
  options <> [] ->
  forallb (fun o => known_option (fst o)) options = true ->
  forall o,
    InitData_parse (config_stream options) o
    = Ok (mkInitOptions
            (option_value "<ParamRange>" (opt_param_range o) options)
            (option_value "<LearnRateCoef>" (opt_learn_rate_coef o) options)
            (option_value "<MaxGrad>" (opt_max_grad o) options)).
Proof.
  induction options as [|[name x] options IH]; intros Hne Hknown o;
    [congruence|].
  cbn [forallb fst] in Hknown. apply andb_true_iff in Hknown as [Hname Hrest].
  rewrite InitData_parse_cons, (@InitData_option_known name x o Hname). cbn [bind].
  rewrite (option_value_cons "<ParamRange>"),
    (option_value_cons "<LearnRateCoef>"), (option_value_cons "<MaxGrad>").
  destruct options as [|p options]; [reflexivity|].
  rewrite IH by (congruence || assumption). reflexivity.
Qed.

Lemma InitData_parse_unknown options :
  forallb (fun o => known_option (fst o)) options = false ->
  forall o, InitData_parse (config_stream options) o = Fault KaldiError.
Proof.
  induction options as [|[name x] options IH]; intros Hknown o;
    [discriminate|].
  cbn [forallb fst] in Hknown. rewrite InitData_parse_cons.
  destruct (known_option name) eqn:Hname.
  - rewrite (@InitData_option_known name x o Hname). cbn [bind].
    destruct options as [|p options]; [discriminate|]. now apply IH.
  - now rewrite (@InitData_option_unknown name x o Hname).
Qed.

Lemma InitData_parse_dangling options name :
  forall o,
    InitData_parse (config_stream options ++ [Token name]) o
    = Fault KaldiError.
Proof.
  induction options as [|[n x] options IH]; intros o; [reflexivity|].
  rewrite config_stream_cons. cbn [app InitData_parse].
  destruct (InitData_option n x o) as [o'|f] eqn:Ho; cbn [bind].
  - specialize (IH o').
    destruct (config_stream options ++ [Token name]) as [|i rest] eqn:Hrest;
      [|exact IH].
    now destruct (config_stream options).
  - unfold InitData_option in Ho.
    destruct (String.eqb n "<ParamRange>"); [discriminate|].
    destruct (String.eqb n "<LearnRateCoef>"); [discriminate|].
    destruct (String.eqb n "<MaxGrad>"); [discriminate|].
    congruence.
Qed.

(** X1: a configuration that names at least one option, all of them
    known, is accepted by [InitData], in any order and with repetitions.
    The layer gets the learning-rate coefficient and the clipping bound the
    configuration gives last, or the defaults 1.0 and 0.0 for the one it
    does not give, whatever the layer held before; the weight matrix and
    the bias are filled anew in the declared dimensions; the gradient
    buffers, the accumulators and the presence flag are left as they were.
    On a stream with nothing in it [InitData] raises instead of taking the
    defaults: the loop tests the end of the stream before anything was
    read, so its body runs and finds no token. *)
Theorem InitData_configuration :
  forall (options : list (string * BaseFloat)) (draws_linearity : CuMatrix)
         (draws_bias : CuVector) (l : AffineTransform),
    (options <> [] ->
     forallb (fun o => known_option (fst o)) options = true ->
     exists l',
       InitData (config_stream options) draws_linearity draws_bias l = Ok l' /\
       learn_rate_coef_ l' = option_value "<LearnRateCoef>" 1 options /\
       max_grad_ l' = option_value "<MaxGrad>" 0 options /\
       CuMatrixBase.NumRows (linearity_ l') = output_dim_ l /\
       CuVectorBase.Dim (bias_ l') = output_dim_ l /\
       ((0 < output_dim_ l)%nat ->
        CuMatrixBase.NumCols (linearity_ l') = input_dim_ l) /\
       linearity_corr_ l' = linearity_corr_ l /\
       bias_corr_ l' = bias_corr_ l /\
       linearity_corr_accu l' = linearity_corr_accu l /\
       bias_corr_accu l' = bias_corr_accu l /\
       adaBuffersInitialized l' = adaBuffersInitialized l) /\
    InitData [] draws_linearity draws_bias l = Fault KaldiError.
Proof.
  intros options dl db l. split; [|reflexivity].
  intros Hne Hknown. unfold InitData.
  rewrite (InitData_parse_known Hne Hknown). cbn [bind].
  eexists. split; [reflexivity|].
  destruct l as [din dout o W b lc bc accu accu_b sc sc_b coef g flag n].
  members.
  unfold InitRandUniformMat, InitRandUniformVec, CuMatrixBase.NumRows,
    CuVectorBase.Dim.
  rewrite imap2_length, NumCols_imap2, length_imap.
  unfold CuMatrixBase.Zero, CuVectorBase.Zero. rewrite !repeat_length.
  repeat split. intros Hpos. now apply NumCols_Zero.
Qed.

Lemma InitData_configuration_witness :
  let l := scalar_layer 3 7 in
  let options := [("<LearnRateCoef>"%string, 1 / 2)] in
  (exists l',
      InitData (config_stream options) [] [] l = Ok l' /\
      learn_rate_coef_ l' = option_value "<LearnRateCoef>" 1 options /\
      max_grad_ l' = option_value "<MaxGrad>" 0 options /\
      CuMatrixBase.NumRows (linearity_ l') = output_dim_ l /\
      CuVectorBase.Dim (bias_ l') = output_dim_ l /\
      ((0 < output_dim_ l)%nat ->
       CuMatrixBase.NumCols (linearity_ l') = input_dim_ l) /\
      linearity_corr_ l' = linearity_corr_ l /\
      bias_corr_ l' = bias_corr_ l /\
      linearity_corr_accu l' = linearity_corr_accu l /\
      bias_corr_accu l' = bias_corr_accu l /\
      adaBuffersInitialized l' = adaBuffersInitialized l) /\
  InitData [] [] [] l = Fault KaldiError.
Proof.
  split.
  - apply (proj1 (InitData_configuration
                    [("<LearnRateCoef>"%string, 1 / 2)] [] []
                    (scalar_layer 3 7))).
    + discriminate.
    + reflexivity.
  - apply (proj2 (InitData_configuration
                    [("<LearnRateCoef>"%string, 1 / 2)] [] []
                    (scalar_layer 3 7))).
Defined.

(** X2: [InitData] raises on a configuration that holds an unknown option
    name, wherever it stands, and on one whose last name has no value. *)
Theorem InitData_rejects :
  forall (options : list (string * BaseFloat)) (draws_linearity : CuMatrix)
         (draws_bias : CuVector) (l : AffineTransform),
    (forallb (fun o => known_option (fst o)) options = false ->
     InitData (config_stream options) draws_linearity draws_bias l
     = Fault KaldiError) /\
    (forall name,
        InitData (config_stream options ++ [Token name]) draws_linearity
                 draws_bias l
        = Fault KaldiError).
Proof.
  intros options dl db l. split.
  - intros Hunknown. unfold InitData.
    now rewrite (InitData_parse_unknown _ Hunknown).
  - intros name. unfold InitData. now rewrite InitData_parse_dangling.
Qed.

Lemma InitData_rejects_witness :
  InitData (config_stream [("<MaxGrad>"%string, 1); ("<BiasMean>"%string, 0)])
           [] [] (scalar_layer 1 0)
  = Fault KaldiError.
Proof.
  apply (proj1 (InitData_rejects
                  [("<MaxGrad>"%string, 1); ("<BiasMean>"%string, 0)] [] []
                  (scalar_layer 1 0))).
  reflexivity.
Defined.

(** ** Persistence: what [ReadData] refuses, checks and leaves alone *)

Lemma ExpectToken_other s token rest binary :
  s <> token -> ExpectToken (Token s :: rest) binary token = Fault KaldiError.
Proof.
  intros Hne. cbn [ExpectToken].
  destruct (String.eqb_spec s token); [contradiction | reflexivity].
Qed.

(** X3: [ReadData] takes the optional tags in one order only.  A stream
    whose next token starts with ['<'] is refused unless that token is
    LearnRateCoef at the start, MaxGrad behind the learning-rate
    coefficient, and AffineAccus behind the clipping bound: MaxGrad or
    AffineAccus without the tags before them raise. *)
Theorem ReadData_tag_order :
  forall (tail : string) (rest : stream) (binary : bool) (l : AffineTransform),
    let tag := String "<"%char tail in
    (tag <> "<LearnRateCoef>"%string ->
     ReadData (Token tag :: rest) binary l = Fault KaldiError) /\
    (forall x,
        tag <> "<MaxGrad>"%string ->
        ReadData (Token "<LearnRateCoef>" :: Basic x :: Token tag :: rest)
                 binary l = Fault KaldiError) /\
    (forall x y,
        tag <> "<AffineAccus>"%string ->
        ReadData (Token "<LearnRateCoef>" :: Basic x :: Token "<MaxGrad>"
                        :: Basic y :: Token tag :: rest)
                 binary l = Fault KaldiError).
Proof.
  intros tail rest binary l tag.
  assert (Hpeek : forall r, is_open_angle (Peek (Token tag :: r) binary) = true)
    by reflexivity.
  clearbody tag. unfold ReadData.
  repeat split.
  - intros Hne. rewrite Hpeek.
    now rewrite (ExpectToken_other _ _ Hne).
  - intros x Hne.
    cbn [Peek is_open_angle Ascii.eqb Bool.eqb].
    change (ExpectToken (Token "<LearnRateCoef>" :: ?r) binary
                        "<LearnRateCoef>") with (Ok r).
    cbn [bind ReadBasicType]. rewrite Hpeek.
    now rewrite (ExpectToken_other _ _ Hne).
  - intros x y Hne.
    cbn [Peek is_open_angle Ascii.eqb Bool.eqb].
    change (ExpectToken (Token "<LearnRateCoef>" :: ?r) binary
                        "<LearnRateCoef>") with (Ok r).
    cbn [bind ReadBasicType].
    cbn [Peek is_open_angle Ascii.eqb Bool.eqb].
    change (ExpectToken (Token "<MaxGrad>" :: ?r) binary "<MaxGrad>")
      with (Ok r).
    cbn [bind ReadBasicType]. rewrite Hpeek.
    now rewrite (ExpectToken_other _ _ Hne).
Qed.

Lemma ReadData_tag_order_witness :
  ReadData [Token "<MaxGrad>"; Basic 1; MatrixItem [[0]]; VectorItem [0]]
           false (scalar_layer 1 0)
  = Fault KaldiError.
Proof.
  apply (proj1 (ReadData_tag_order "MaxGrad>"
                  [Basic 1; MatrixItem [[0]]; VectorItem [0]] false
                  (scalar_layer 1 0))).
  discriminate.
Defined.

(** X4: a layer written by [WriteData] is refused by a layer of other
    dimensions: [ReadData] fails an assertion after reading the weight
    matrix and the bias. *)
Theorem ReadData_dimension_mismatch :
  forall (l : AffineTransform) (binary : bool) (opts : NetTrainOptions)
         (rest : stream) (dim_in dim_out : nat),
    well_dimensioned l ->
    dim_in <> input_dim_ l \/ dim_out <> output_dim_ l ->
    ReadData (WriteData [] binary l ++ rest) binary
             (AffineTransform_ctor dim_in dim_out opts)
    = Fault AssertionFailed.
Proof.
  intros l binary opts rest dim_in dim_out (Hrows & Hcols & Hdim) Hne.
  destruct l as [din dout o W b lc bc accu accu_b sc sc_b coef g flag n].
  cbn [linearity_ bias_ input_dim_ output_dim_] in Hrows, Hcols, Hdim, Hne.
  unfold CuMatrixBase.NumRows, CuVectorBase.Dim in Hrows, Hdim.
  assert (Hcols' : CuMatrixBase.NumCols (map (map (written binary)) W) = din)
    by (now rewrite NumCols_map_map).
  assert (Hrows' : length (map (map (written binary)) W) = dout)
    by (now rewrite length_map).
  assert (Hdim' : length (map (written binary) b) = dout)
    by (now rewrite length_map).
  clear Hrows Hcols Hdim.
  unfold WriteData, WriteToken, WriteBasicType, WriteMatrix, WriteVector.
  cbn [linearity_ bias_ learn_rate_coef_ max_grad_ adaBuffersInitialized
       linearity_corr_accu bias_corr_accu].
  revert Hrows' Hcols' Hdim'.
  generalize (map (map (written binary)) W) as W'.
  generalize (map (written binary) b) as b'.
  generalize (map (map (written binary)) accu) as accu'.
  generalize (map (written binary) accu_b) as accu_b'.
  generalize (written binary coef) as coef'.
  generalize (written binary g) as g'.
  intros g' coef' accu_b' accu' b' W' Hrows Hcols Hdim.
  unfold ReadData, AffineTransform_ctor.
  destruct flag; cbn; rewrite Hrows, Hcols, Hdim;
    (destruct (Nat.eqb_spec dout dim_out) as [E1|N1]; cbn;
     [|reflexivity]);
    (destruct (Nat.eqb_spec din dim_in) as [E2|N2]; cbn;
     [|reflexivity]);
    subst; destruct Hne; congruence.
Qed.

Lemma ReadData_dimension_mismatch_witness :
  ReadData (WriteData [] false selector_layer ++ []) false
           (AffineTransform_ctor 2 3 example_opts)
  = Fault AssertionFailed.
Proof.
  apply (@ReadData_dimension_mismatch selector_layer false example_opts []
                                      2 3).
  - repeat split.
  - left. discriminate.
Defined.

(** X5: [ReadData] checks the dimensions of the weight matrix and of the
    bias only.  An accumulator block is accepted with accumulators of any
    dimensions: they become the layer's accumulators, the scale buffers
    are zero-filled in the declared dimensions and the flag is set. *)
Theorem ReadData_accumulators_unchecked :
  forall (x y : BaseFloat) (A W : CuMatrix) (a b : CuVector) (rest : stream)
         (binary : bool) (l : AffineTransform),
    CuMatrixBase.NumRows W = output_dim_ l ->
    CuMatrixBase.NumCols W = input_dim_ l ->
    CuVectorBase.Dim b = output_dim_ l ->
    exists l',
      ReadData (Token "<LearnRateCoef>" :: Basic x :: Token "<MaxGrad>"
                      :: Basic y :: Token "<AffineAccus>" :: MatrixItem A
                      :: VectorItem a :: MatrixItem W :: VectorItem b :: rest)
               binary l
      = Ok (l', rest) /\
      linearity_corr_accu l' = A /\
      bias_corr_accu l' = a /\
      linearity_corr_accu_scale l'
      = CuMatrixBase.Zero (output_dim_ l) (input_dim_ l) /\
      bias_corr_accu_scale l' = CuVectorBase.Zero (output_dim_ l) /\
      adaBuffersInitialized l' = true /\
      ada_allocations l' = S (ada_allocations l) /\
      linearity_ l' = W /\ bias_ l' = b /\
      learn_rate_coef_ l' = x /\ max_grad_ l' = y.
Proof.
  intros x y A W a b rest binary l Hrows Hcols Hdim.
  destruct l as [din dout o W0 b0 lc bc accu accu_b sc sc_b coef g flag n].
  cbn [input_dim_ output_dim_] in *.
  unfold CuMatrixBase.NumRows, CuVectorBase.Dim in Hrows, Hdim.
  unfold ReadData. cbn. rewrite Hrows, Hcols, Hdim, !Nat.eqb_refl. cbn.
  eexists. split; [reflexivity|]. cbn. repeat split.
Qed.

Lemma ReadData_accumulators_unchecked_witness :
  let l := AffineTransform_ctor 3 2 example_opts in
  exists l',
    ReadData [Token "<LearnRateCoef>"; Basic 1; Token "<MaxGrad>"; Basic 0;
              Token "<AffineAccus>"; MatrixItem [[5]]; VectorItem [];
              MatrixItem [[1; 0; 0]; [0; 1; 0]]; VectorItem [0; 0]]
             false l
    = Ok (l', []) /\
    linearity_corr_accu l' = [[5]] /\
    bias_corr_accu l' = [] /\
    linearity_corr_accu_scale l'
    = CuMatrixBase.Zero (output_dim_ l) (input_dim_ l) /\
    bias_corr_accu_scale l' = CuVectorBase.Zero (output_dim_ l) /\
    adaBuffersInitialized l' = true /\
    ada_allocations l' = S (ada_allocations l) /\
    linearity_ l' = [[1; 0; 0]; [0; 1; 0]] /\ bias_ l' = [0; 0] /\
    learn_rate_coef_ l' = 1 /\ max_grad_ l' = 0.
Proof.
  apply (@ReadData_accumulators_unchecked 1 0 [[5]] [[1; 0; 0]; [0; 1; 0]]
           [] [0; 0] [] false (AffineTransform_ctor 3 2 example_opts));
    reflexivity.
Defined.

(** X6: [ReadData] never touches the gradient buffers, so the momentum a
    layer carries survives reading new parameters; the dimensions and the
    training options stay, and the weight matrix and the bias it leaves
    have the declared dimensions.  Without an accumulator block the
    accumulators and scale buffers are left as they were, although the
    flag is cleared. *)
Theorem ReadData_frame :
  forall (is_ : stream) (binary : bool) (l l' : AffineTransform)
         (rest : stream),
    ReadData is_ binary l = Ok (l', rest) ->
    linearity_corr_ l' = linearity_corr_ l /\
    bias_corr_ l' = bias_corr_ l /\
    input_dim_ l' = input_dim_ l /\
    output_dim_ l' = output_dim_ l /\
    opts_ l' = opts_ l /\
    well_dimensioned l' /\
    (adaBuffersInitialized l' = false ->
     linearity_corr_accu l' = linearity_corr_accu l /\
     bias_corr_accu l' = bias_corr_accu l /\
     linearity_corr_accu_scale l' = linearity_corr_accu_scale l /\
     bias_corr_accu_scale l' = bias_corr_accu_scale l /\
     ada_allocations l' = ada_allocations l).
Proof.
  intros is_ binary l l' rest H.
  destruct (ReadData_inv _ _ _ H) as (W & b & Hdims & Hcases).
  cbv zeta in Hcases. unfold well_dimensioned.
  destruct Hcases as [(_ & ->) | [(x & _ & ->) | [(x & y & _ & ->)
                     | (x & y & A & a & _ & ->)]]];
    destruct l as [din dout o W0 b0 lc bc accu accu_b sc sc_b coef g flag n];
    cbn in Hdims |- *; repeat split; try tauto; discriminate.
Qed.

Lemma ReadData_frame_witness :
  let l := Update example_epsilon example_decay [[1]] [[1]] sgd_update
                  (scalar_layer 1 0) in
  let l' := set_bias_ [0]
              (set_linearity_ [[0]] (set_adaBuffersInitialized false l)) in
  linearity_corr_ l' = linearity_corr_ l /\
  bias_corr_ l' = bias_corr_ l.
Proof.
  cbv zeta.
  assert (H : ReadData [MatrixItem [[0]]; VectorItem [0]] false
                (Update example_epsilon example_decay [[1]] [[1]] sgd_update
                        (scalar_layer 1 0))
              = Ok (set_bias_ [0]
                      (set_linearity_ [[0]]
                         (set_adaBuffersInitialized false
                            (Update example_epsilon example_decay [[1]] [[1]]
                                    sgd_update (scalar_layer 1 0)))), [])).
  { destruct (Update_scalars example_epsilon example_decay [[1]] [[1]]
                             sgd_update (scalar_layer 1 0))
      as (_ & _ & Hin & Hout & _).
    apply ReadData_untagged;
      cbn [CuMatrixBase.NumRows CuMatrixBase.NumCols CuVectorBase.Dim length];
      [rewrite Hout | rewrite Hin | rewrite Hout]; reflexivity. }
  destruct (ReadData_frame _ _ _ H) as (Hl & Hb & _).
  split; [exact Hl | exact Hb].
Defined.

(** X7: writing a layer, reading it into a fresh layer of the same
    dimensions and writing that layer gives the stream written first: what
    [WriteData] writes is exactly what [ReadData] restores. *)
Theorem WriteData_ReadData_WriteData :
  forall (l : AffineTransform) (binary : bool) (opts : NetTrainOptions)
         (rest : stream),
    well_dimensioned l ->
    exists l',
      ReadData (WriteData [] binary l ++ rest) binary
               (AffineTransform_ctor (input_dim_ l) (output_dim_ l) opts)
      = Ok (l', rest) /\
      WriteData [] binary l' = WriteData [] binary l.
Proof.
  intros l binary opts rest Hwd.
  destruct (WriteData_ReadData_written binary opts rest Hwd)
    as (l' & Hread & HW & Hb & Hcoef & Hg & Hflag & Haccu).
  exists l'. split; [exact Hread|].
  unfold WriteData, WriteToken, WriteBasicType, WriteMatrix, WriteVector.
  rewrite HW, Hb, Hcoef, Hg, Hflag.
  rewrite map_map_written_idempotent, map_written_idempotent,
    !written_idempotent.
  destruct (adaBuffersInitialized l); [|reflexivity].
  destruct (Haccu eq_refl) as [-> ->].
  now rewrite map_map_written_idempotent, map_written_idempotent.
Qed.

Lemma WriteData_ReadData_WriteData_witness :
  let l := InitAdaBuffers selector_layer in
  exists l',
    ReadData (WriteData [] true l ++ []) true
             (AffineTransform_ctor (input_dim_ l) (output_dim_ l) example_opts)
    = Ok (l', []) /\
    WriteData [] true l' = WriteData [] true l.
Proof.
  apply (WriteData_ReadData_WriteData (l := InitAdaBuffers selector_layer)
           true example_opts []).
  repeat split.
Defined.

(** ** Dimensions and the number of parameters *)

Lemma reachable_well_dimensioned_witness :
  well_dimensioned
    (Update example_epsilon example_decay ones_4x3 grads_4x2 adagrad_update
            (AffineTransform_ctor 3 2 example_opts)).
Proof.
  apply (@reachable_well_dimensioned example_epsilon example_decay).
  - apply reachable_step
      with (l := AffineTransform_ctor 3 2 example_opts)
           (o := OpUpdate ones_4x3 grads_4x2 adagrad_update).
    + apply reachable_ctor.
    + reflexivity.
  - destruct (Update_scalars example_epsilon example_decay ones_4x3 grads_4x2
                adagrad_update (AffineTransform_ctor 3 2 example_opts))
      as (_ & _ & _ & Hout & _).
    rewrite Hout. simpl. lia.
Defined.

Section ParameterCount.
Variables (epsilon rmsprop_decay : BaseFloat).

Lemma well_dimensioned_columns l :
  well_dimensioned l -> output_dim_ l = 0%nat -> input_dim_ l = 0%nat.
Proof.
  intros (Hrows & Hcols & _) Hzero. rewrite Hzero in Hrows.
  unfold CuMatrixBase.NumRows in Hrows.
  destruct (linearity_ l); [now rewrite <- Hcols | discriminate].
Qed.

Lemma NumCols_Zero_dimensioned rows cols :
  (rows = 0%nat -> cols = 0%nat) ->
  CuMatrixBase.NumCols (CuMatrixBase.Zero rows cols) = cols.
Proof.
  destruct rows; intros H; [now rewrite H | cbn; apply repeat_length].
Qed.

Lemma apply_operation_well_dimensioned o l l' :
  well_dimensioned l ->
  apply_operation epsilon rmsprop_decay o l = Ok l' ->
  well_dimensioned l' /\
  input_dim_ l' = input_dim_ l /\ output_dim_ l' = output_dim_ l.
Proof.
  intros Hwd Hstep.
  destruct (apply_operation_dimensions _ _ _ _ Hstep) as [Hin Hout].
  split; [|now split].
  destruct o as [is_ dl db | is_ binary | input diff rule | scale
                 | scale other]; cbn [apply_operation] in Hstep.
  - pose proof (well_dimensioned_columns Hwd) as Hcols0.
    unfold InitData in Hstep. apply bind_inv in Hstep as (o & _ & H).
    injection H as <-. unfold well_dimensioned. members.
    unfold InitRandUniformMat, InitRandUniformVec,
      CuMatrixBase.NumRows, CuVectorBase.Dim.
    rewrite imap2_length, NumCols_imap2, length_imap.
    rewrite NumCols_Zero_dimensioned by exact Hcols0.
    unfold CuMatrixBase.Zero, CuVectorBase.Zero. rewrite !repeat_length.
    repeat split.
  - apply bind_inv in Hstep as ([l1 rest] & H & E). injection E as <-.
    destruct (ReadData_inv _ _ _ H) as (W & b & Hdims & Hcases).
    cbv zeta in Hcases. unfold well_dimensioned. rewrite Hin, Hout.
    destruct Hcases as [(_ & ->) | [(x & _ & ->) | [(x & y & _ & ->)
                       | (x & y & A & a & _ & ->)]]];
      exact Hdims.
  - injection Hstep as <-. now apply Update_well_dimensioned.
  - injection Hstep as <-. destruct Hwd as (Hrows & Hcols & Hdim).
    unfold well_dimensioned, Scale. members.
    unfold CuMatrixBase.Scale, CuVectorBase.Scale, CuMatrixBase.NumRows,
      CuVectorBase.Dim in *.
    now rewrite NumCols_map_map, !length_map.
  - destruct other as [other|]; [|discriminate].
    rewrite Add_AffineTransform in Hstep. injection Hstep as <-.
    destruct Hwd as (Hrows & Hcols & Hdim).
    unfold well_dimensioned. members.
    unfold CuMatrixBase.AddMat, CuVectorBase.AddVec, CuMatrixBase.NumRows,
      CuVectorBase.Dim in *.
    now rewrite imap2_length, NumCols_imap2, length_imap.
Qed.

End ParameterCount.

(** ** [int32] arithmetic on the number of parameters *)

Lemma int32_count_fits (rows cols dim : nat) :
  (Z.of_nat (rows * cols + dim) <= INT32_MAX)%Z ->
  (elems <- int32_mul (Z.of_nat rows) (Z.of_nat cols) ;;
   int32_add elems (Z.of_nat dim))
  = Ok (Z.of_nat (rows * cols + dim)).
Proof.
  intros Hfits. unfold int32_mul, int32_add, int32, INT32_MIN, INT32_MAX in *.
  assert (H : (Z.of_nat rows * Z.of_nat cols = Z.of_nat (rows * cols))%Z)
    by lia.
  rewrite H.
  destruct (Z.leb_spec (-2147483648) (Z.of_nat (rows * cols))); [|lia].
  destruct (Z.leb_spec (Z.of_nat (rows * cols)) 2147483647); [|lia].
  cbn [andb bind].
  destruct (Z.leb_spec (-2147483648)
                       (Z.of_nat (rows * cols) + Z.of_nat dim)); [|lia].
  destruct (Z.leb_spec (Z.of_nat (rows * cols) + Z.of_nat dim) 2147483647);
    [|lia].
  cbn [andb]. f_equal. lia.
Qed.

Lemma int32_count_overflows (rows cols dim : nat) :
  (INT32_MAX < Z.of_nat (rows * cols + dim))%Z ->
  (elems <- int32_mul (Z.of_nat rows) (Z.of_nat cols) ;;
   int32_add elems (Z.of_nat dim))
  = Fault UndefinedBehaviour.
Proof.
  intros Hover. unfold int32_mul, int32_add, int32, INT32_MIN, INT32_MAX in *.
  assert (H : (Z.of_nat rows * Z.of_nat cols = Z.of_nat (rows * cols))%Z)
    by lia.
  rewrite H.
  destruct (Z.leb_spec (-2147483648) (Z.of_nat (rows * cols))); [|lia].
  destruct (Z.leb_spec (Z.of_nat (rows * cols)) 2147483647);
    cbn [andb bind]; [|reflexivity].
  destruct (Z.leb_spec (-2147483648)
                       (Z.of_nat (rows * cols) + Z.of_nat dim)); [|lia].
  destruct (Z.leb_spec (Z.of_nat (rows * cols) + Z.of_nat dim) 2147483647);
    [lia|].
  reflexivity.
Qed.

Lemma int32_elems_fits (rows cols : nat) :
  (Z.of_nat (rows * cols) <= INT32_MAX)%Z ->
  int32_mul (Z.of_nat rows) (Z.of_nat cols) = Ok (Z.of_nat (rows * cols)).
Proof.
  intros Hfits. unfold int32_mul, int32, INT32_MIN, INT32_MAX in *.
  assert (H : (Z.of_nat rows * Z.of_nat cols = Z.of_nat (rows * cols))%Z)
    by lia.
  rewrite H.
  destruct (Z.leb_spec (-2147483648) (Z.of_nat (rows * cols))); [|lia].
  destruct (Z.leb_spec (Z.of_nat (rows * cols)) 2147483647); [|lia].
  reflexivity.
Qed.

(** X9: for a layer whose parameters have the declared dimensions
    [NumParams] is [dim_out * dim_in + dim_out] when that number fits a
    signed integer of 32 bits; when it does not, the [int32] arithmetic of
    [NumParams] overflows.  No operation that returns ([InitData],
    [ReadData], [Update], [Scale], [Add]) changes what [NumParams]
    gives. *)
Theorem NumParams_invariant :
  forall (epsilon rmsprop_decay : BaseFloat) (l : AffineTransform),
    well_dimensioned l ->
    ((Z.of_nat (output_dim_ l * input_dim_ l + output_dim_ l) <= INT32_MAX)%Z ->
     NumParams l
     = Ok (Z.of_nat (output_dim_ l * input_dim_ l + output_dim_ l))) /\
    ((INT32_MAX < Z.of_nat (output_dim_ l * input_dim_ l + output_dim_ l))%Z ->
     NumParams l = Fault UndefinedBehaviour) /\
    forall (o : operation) (l' : AffineTransform),
      apply_operation epsilon rmsprop_decay o l = Ok l' ->
      NumParams l' = NumParams l.
Proof.
  intros epsilon rmsprop_decay l Hwd.
  assert (Hn : forall l0, well_dimensioned l0 ->
                 NumParams l0
                 = (elems <- int32_mul (Z.of_nat (output_dim_ l0))
                                       (Z.of_nat (input_dim_ l0)) ;;
                    int32_add elems (Z.of_nat (output_dim_ l0)))).
  { intros l0 (Hrows & Hcols & Hdim). unfold NumParams.
    now rewrite Hrows, Hcols, Hdim. }
  split; [|split].
  - intros Hfits. rewrite (Hn _ Hwd).
    now apply int32_count_fits.
  - intros Hover. rewrite (Hn _ Hwd).
    now apply int32_count_overflows.
  - intros o l' Hstep.
    destruct (apply_operation_well_dimensioned _ _ _ Hwd Hstep)
      as (Hwd' & Hin & Hout).
    rewrite (Hn _ Hwd'), (Hn _ Hwd). now rewrite Hin, Hout.
Qed.

Lemma NumParams_invariant_witness :
  NumParams selector_layer = Ok 8%Z /\
  NumParams (Update example_epsilon example_decay ones_4x3 grads_4x2
                    rmsprop_update selector_layer)
  = NumParams selector_layer.
Proof.
  destruct (@NumParams_invariant example_epsilon example_decay selector_layer)
    as (Hn & _ & Hstep).
  - repeat split.
  - split; [apply Hn; unfold INT32_MAX; cbn; lia|].
    apply (Hstep (OpUpdate ones_4x3 grads_4x2 rmsprop_update)). reflexivity.
Defined.

(** ** Parameter access *)

Lemma imap2_pointwise f g m :
  (forall i j,
      (i < length m)%nat -> (j < length (nth i m []))%nat ->
      f i j (CuMatrixBase.at_ m i j) = g i j (CuMatrixBase.at_ m i j)) ->
  CuMatrixBase.imap2 f m = CuMatrixBase.imap2 g m.
Proof.
  intros H. apply nth_ext with (d := []) (d' := []).
  - now rewrite !imap2_length.
  - intros i Hi. rewrite imap2_length in Hi. rewrite !imap2_row by exact Hi.
    apply nth_ext with (d := 0) (d' := 0).
    + now rewrite !length_imap.
    + intros j Hj. rewrite length_imap in Hj.
      rewrite !(nth_imap _ _ 0 0 Hj). now apply H.
Qed.

Lemma imap_pointwise (f g : nat -> R -> R) (v : CuVector) :
  (forall j, (j < length v)%nat ->
             f j (CuVectorBase.at_ v j) = g j (CuVectorBase.at_ v j)) ->
  imap f v = imap g v.
Proof.
  intros H. apply nth_ext with (d := 0) (d' := 0).
  - now rewrite !length_imap.
  - intros j Hj. rewrite length_imap in Hj.
    rewrite !(nth_imap _ _ 0 0 Hj). now apply H.
Qed.

Lemma imap2_id m : CuMatrixBase.imap2 (fun _ _ x => x) m = m.
Proof.
  apply nth_ext with (d := []) (d' := []).
  - now rewrite imap2_length.
  - intros i Hi. rewrite imap2_length in Hi. rewrite imap2_row by exact Hi.
    apply nth_ext with (d := 0) (d' := 0).
    + now rewrite length_imap.
    + intros j Hj. rewrite length_imap in Hj. now rewrite (nth_imap _ _ 0 0 Hj).
Qed.

Lemma imap_id (v : CuVector) : imap (fun _ x => x) v = v.
Proof.
  apply nth_ext with (d := 0) (d' := 0).
  - now rewrite length_imap.
  - intros j Hj. rewrite length_imap in Hj. now rewrite (nth_imap _ _ 0 0 Hj).
Qed.



(** X10: when the number of parameters fits a signed integer of 32 bits,
    [GetParams] returns that many values: the weight matrix row by row,
    element [(i, j)] at position [i * dim_in + j], and behind it the bias,
    element [k] at position [dim_out * dim_in + k].  When the number does
    not fit, the [int32] arithmetic of [GetParams] overflows. *)
Theorem GetParams_layout :
  forall (l : AffineTransform) (rows cols : nat),
    has_shape (linearity_ l) rows cols ->
    ((Z.of_nat (rows * cols + CuVectorBase.Dim (bias_ l)) <= INT32_MAX)%Z ->
     exists wei_copy,
       GetParams l = Ok wei_copy /\
       NumParams l = Ok (Z.of_nat (length wei_copy)) /\
       length wei_copy = (rows * cols + CuVectorBase.Dim (bias_ l))%nat /\
       (forall i j,
           (i < rows)%nat -> (j < cols)%nat ->
           CuVectorBase.at_ wei_copy (i * cols + j)
           = CuMatrixBase.at_ (linearity_ l) i j) /\
       (forall k,
           (k < CuVectorBase.Dim (bias_ l))%nat ->
           CuVectorBase.at_ wei_copy (rows * cols + k)
           = CuVectorBase.at_ (bias_ l) k)) /\
    ((INT32_MAX < Z.of_nat (rows * cols + CuVectorBase.Dim (bias_ l)))%Z ->
     GetParams l = Fault UndefinedBehaviour).
Proof.
  intros l rows cols Hshape.
  assert (Hn : (CuMatrixBase.NumRows (linearity_ l)
                * CuMatrixBase.NumCols (linearity_ l) = rows * cols)%nat).
  { destruct Hshape as [Hr Hc]. unfold CuMatrixBase.NumRows. rewrite Hr.
    destruct rows as [|rows]; [reflexivity|].
    f_equal. apply has_shape_NumCols with (rows := S rows);
      [now split | lia]. }
  split.
  - intros Hfits.
    assert (Hcount : NumParams l
                     = Ok (Z.of_nat (rows * cols
                                     + CuVectorBase.Dim (bias_ l)))).
    { unfold NumParams. rewrite int32_count_fits; rewrite Hn; trivial. }
    assert (Helems : int32_mul
                       (Z.of_nat (CuMatrixBase.NumRows (linearity_ l)))
                       (Z.of_nat (CuMatrixBase.NumCols (linearity_ l)))
                     = Ok (Z.of_nat (rows * cols))).
    { rewrite int32_elems_fits; rewrite Hn; trivial. lia. }
    unfold GetParams. rewrite Hcount, Helems. cbn [bind].
    rewrite !Nat2Z.id.
    eexists. split; [reflexivity|].
    assert (Hlen : length
                     (RangeCopyFromVec (rows * cols)
                        (CuVectorBase.Dim (bias_ l)) (bias_ l)
                        (RangeCopyRowsFromMat 0 (rows * cols) (linearity_ l)
                           (CuVectorBase.Zero
                              (rows * cols + CuVectorBase.Dim (bias_ l)))))
                   = (rows * cols + CuVectorBase.Dim (bias_ l))%nat).
    { unfold RangeCopyFromVec, RangeCopyRowsFromMat.
      rewrite !length_imap. apply repeat_length. }
    split; [now rewrite Hlen|]. split; [exact Hlen|]. split.
    + intros i j Hi Hj.
      assert (Hcols : CuMatrixBase.NumCols (linearity_ l) = cols)
        by (apply has_shape_NumCols with (rows := rows);
            [exact Hshape | lia]).
      assert (Hk : (i * cols + j < rows * cols)%nat) by nia.
      unfold RangeCopyFromVec at 1.
      rewrite imap_at
        by (unfold RangeCopyRowsFromMat, CuVectorBase.Zero;
            rewrite length_imap, repeat_length; lia).
      destruct (Nat.leb_spec (rows * cols) (i * cols + j)); [lia|].
      cbn [andb]. unfold RangeCopyRowsFromMat.
      rewrite imap_at
        by (unfold CuVectorBase.Zero; rewrite repeat_length; lia).
      cbn [Nat.leb andb Nat.add].
      destruct (Nat.ltb_spec (i * cols + j) (rows * cols)); [|lia].
      rewrite Hcols, Nat.sub_0_r.
      rewrite Nat.div_add_l, Nat.div_small, Nat.add_0_r by lia.
      rewrite Nat.add_comm, Nat.Div0.mod_add, Nat.mod_small by lia.
      reflexivity.
    + intros k Hk.
      unfold RangeCopyFromVec.
      rewrite imap_at
        by (unfold RangeCopyRowsFromMat, CuVectorBase.Zero;
            rewrite length_imap, repeat_length; lia).
      destruct (Nat.leb_spec (rows * cols) (rows * cols + k)); [|lia].
      destruct (Nat.ltb_spec (rows * cols + k)
                             (rows * cols + CuVectorBase.Dim (bias_ l)));
        [|lia].
      cbn [andb]. f_equal. lia.
  - intros Hover. unfold GetParams, NumParams.
    rewrite int32_count_overflows; [reflexivity | now rewrite Hn].
Qed.

Lemma GetParams_layout_witness :
  exists wei_copy,
    GetParams selector_layer = Ok wei_copy /\
    length wei_copy = 8%nat /\
    CuVectorBase.at_ wei_copy (1 * 3 + 1)
    = CuMatrixBase.at_ (linearity_ selector_layer) 1 1.
Proof.
  destruct (@GetParams_layout selector_layer 2 3) as [Hfits _].
  - split; [reflexivity | repeat constructor].
  - destruct Hfits as (v & Hv & _ & Hlen & HW & _).
    + unfold INT32_MAX. cbn. lia.
    + exists v. split; [exact Hv|]. split; [exact Hlen|]. apply HW; lia.
Defined.

(** X11: [SetLinearity] is checked on the shape: a matrix of the shape of
    the weight matrix becomes the weight matrix, and [GetLinearity] returns
    it, every other member staying as it was; a matrix with another number
    of rows or of columns fails the assertion. *)
Theorem SetLinearity_checked :
  forall (linearity : CuMatrix) (l : AffineTransform) (rows cols : nat),
    has_shape (linearity_ l) rows cols ->
    (has_shape linearity rows cols ->
     exists l',
       SetLinearity linearity l = Ok l' /\
       GetLinearity l' = linearity /\
       bias_ l' = bias_ l /\
       same_besides_parameters l l') /\
    (CuMatrixBase.NumRows linearity <> rows
     \/ ((0 < rows)%nat /\ CuMatrixBase.NumCols linearity <> cols) ->
     SetLinearity linearity l = Fault AssertionFailed).
Proof.
  intros m l rows cols HW.
  assert (HWr : CuMatrixBase.NumRows (linearity_ l) = rows) by apply HW.
  split.
  - intros Hm.
    assert (Hmr : CuMatrixBase.NumRows m = rows) by apply Hm.
    assert (Hc : CuMatrixBase.NumCols m
                 = CuMatrixBase.NumCols (linearity_ l)).
    { destruct rows as [|rows].
      - destruct Hm as [Hm0 _], HW as [HW0 _].
        destruct m; [|discriminate]. now destruct (linearity_ l).
      - rewrite (has_shape_NumCols Hm), (has_shape_NumCols HW) by lia.
        reflexivity. }
    unfold SetLinearity. rewrite Hmr, HWr, Hc, !Nat.eqb_refl. cbn [KALDI_ASSERT bind].
    eexists. split; [reflexivity|].
    assert (Hcopy : CopyFromMat m (linearity_ l) = m).
    { unfold CopyFromMat.
      apply nth_ext with (d := []) (d' := []).
      - rewrite imap2_length. destruct HW, Hm. congruence.
      - intros i Hi. rewrite imap2_length in Hi.
        rewrite imap2_row by exact Hi.
        assert (Hi' : (i < rows)%nat) by (destruct HW; lia).
        pose proof (has_shape_row HW Hi') as HrW.
        pose proof (has_shape_row Hm Hi') as Hrm.
        apply nth_ext with (d := 0) (d' := 0).
        + rewrite length_imap. congruence.
        + intros j Hj. rewrite length_imap in Hj.
          now rewrite (nth_imap _ _ 0 0 Hj). }
    destruct l; unfold GetLinearity; members; cbn [linearity_] in Hcopy.
    rewrite Hcopy. repeat split.
  - intros Hne. unfold SetLinearity. rewrite HWr.
    destruct (Nat.eqb_spec (CuMatrixBase.NumRows m) rows) as [E|N];
      [|reflexivity].
    destruct Hne as [Hne | [Hpos Hne]]; [contradiction|].
    rewrite (has_shape_NumCols HW Hpos).
    destruct (Nat.eqb_spec (CuMatrixBase.NumCols m) cols) as [E2|N2];
      [contradiction | reflexivity].
Qed.

Lemma SetLinearity_checked_witness :
  (exists l',
      SetLinearity [[1; 2; 3]; [4; 5; 6]] selector_layer = Ok l' /\
      GetLinearity l' = [[1; 2; 3]; [4; 5; 6]] /\
      bias_ l' = bias_ selector_layer /\
      same_besides_parameters selector_layer l') /\
  SetLinearity [[1; 2]; [3; 4]] selector_layer = Fault AssertionFailed.
Proof.
  assert (HW : has_shape (linearity_ selector_layer) 2 3)
    by (split; [reflexivity | repeat constructor]).
  split.
  - apply (proj1 (@SetLinearity_checked [[1; 2; 3]; [4; 5; 6]]
                    selector_layer 2 3 HW)).
    split; [reflexivity | repeat constructor].
  - apply (proj2 (@SetLinearity_checked [[1; 2]; [3; 4]]
                    selector_layer 2 3 HW)).
    right. split; [lia | discriminate].
Defined.

(** X12: [SetBias] is checked on the dimension: a vector of the length of
    the bias becomes the bias, every other member staying as it was; a
    vector of another length fails the assertion. *)
Theorem SetBias_checked :
  forall (bias : CuVector) (l : AffineTransform),
    (CuVectorBase.Dim bias = CuVectorBase.Dim (bias_ l) ->
     exists l',
       SetBias bias l = Ok l' /\
       bias_ l' = bias /\
       linearity_ l' = linearity_ l /\
       same_besides_parameters l l') /\
    (CuVectorBase.Dim bias <> CuVectorBase.Dim (bias_ l) ->
     SetBias bias l = Fault AssertionFailed).
Proof.
  intros bias l. unfold SetBias. split.
  - intros Hdim. rewrite Hdim, Nat.eqb_refl. cbn [KALDI_ASSERT bind].
    eexists. split; [reflexivity|].
    assert (Hcopy : CopyFromVec bias (bias_ l) = bias).
    { unfold CopyFromVec. apply nth_ext with (d := 0) (d' := 0).
      - rewrite length_imap. symmetry. exact Hdim.
      - intros j Hj. rewrite length_imap in Hj.
        now rewrite (nth_imap _ _ 0 0 Hj). }
    destruct l; members; cbn [bias_] in Hcopy. rewrite Hcopy. repeat split.
  - intros Hne.
    destruct (Nat.eqb_spec (CuVectorBase.Dim bias) (CuVectorBase.Dim (bias_ l)));
      [contradiction | reflexivity].
Qed.

Lemma SetBias_checked_witness :
  (exists l',
      SetBias [7; 8] selector_layer = Ok l' /\
      bias_ l' = [7; 8] /\
      linearity_ l' = linearity_ selector_layer /\
      same_besides_parameters selector_layer l') /\
  SetBias [7; 8; 9] selector_layer = Fault AssertionFailed.
Proof.
  split.
  - apply (proj1 (SetBias_checked [7; 8] selector_layer)). reflexivity.
  - apply (proj2 (SetBias_checked [7; 8; 9] selector_layer)). discriminate.
Defined.

(** ** Model combination, continued *)


(** X14: [Scale(1.0)] changes nothing, and [Scale(-1.0)] is its own
    inverse: changing the sign of the parameters twice restores the
    layer. *)
Theorem Scale_identity :
  forall l : AffineTransform,
    Scale 1 l = l /\ Scale (- 1) (Scale (- 1) l) = l.
Proof.
  intros l.
  assert (Hm : forall m : CuMatrix,
             CuMatrixBase.Scale (- 1) (CuMatrixBase.Scale (- 1) m) = m).
  { intros m. unfold CuMatrixBase.Scale. rewrite map_map.
    rewrite <- (map_id m) at 2. apply map_ext. intros row.
    rewrite map_map. rewrite <- (map_id row) at 2. apply map_ext.
    intros x. lra. }
  assert (Hv : forall v : CuVector,
             CuVectorBase.Scale (- 1) (CuVectorBase.Scale (- 1) v) = v).
  { intros v. unfold CuVectorBase.Scale. rewrite map_map.
    rewrite <- (map_id v) at 2. apply map_ext. intros x. lra. }
  assert (Hm1 : forall m : CuMatrix, CuMatrixBase.Scale 1 m = m).
  { intros m. unfold CuMatrixBase.Scale.
    rewrite <- (map_id m) at 2. apply map_ext. intros row.
    rewrite <- (map_id row) at 2. apply map_ext. intros x. lra. }
  assert (Hv1 : forall v : CuVector, CuVectorBase.Scale 1 v = v).
  { intros v. unfold CuVectorBase.Scale.
    rewrite <- (map_id v) at 2. apply map_ext. intros x. lra. }
  destruct l as [din dout o W bv lc bc accu accu_b sc sc_b coef g flag n].
  unfold Scale. members. rewrite Hm, Hv, Hm1, Hv1. split; reflexivity.
Qed.

(** ** Update, continued *)

(** X16: under rule sgd a layer whose effective learning rate
    [learn_rate * learn_rate_coef_] is zero is frozen: [Update] leaves its
    weight matrix and its bias as they were, whatever the gradient. *)
Theorem Update_sgd_frozen :
  forall (epsilon rmsprop_decay : BaseFloat) (input diff : CuMatrix)
         (l : AffineTransform),
    learn_rate (opts_ l) * learn_rate_coef_ l = 0 ->
    linearity_ (Update epsilon rmsprop_decay input diff sgd_update l)
    = linearity_ l /\
    bias_ (Update epsilon rmsprop_decay input diff sgd_update l) = bias_ l.
Proof.
  intros epsilon rmsprop_decay input diff l Hzero.
  destruct (Update_sgd_parameters epsilon rmsprop_decay input diff l)
    as [-> ->].
  rewrite Hzero. split.
  - unfold CuMatrixBase.AddMat.
    rewrite <- (imap2_id (linearity_ l)) at 2.
    apply imap2_pointwise. intros i j _ _. lra.
  - unfold CuVectorBase.AddVec.
    rewrite <- (imap_id (bias_ l)) at 2.
    apply imap_pointwise. intros j _. lra.
Qed.

Lemma Update_sgd_frozen_witness :
  linearity_ (Update example_epsilon example_decay [[1]] [[1]] sgd_update
                     (scalar_layer 0 0))
  = linearity_ (scalar_layer 0 0) /\
  bias_ (Update example_epsilon example_decay [[1]] [[1]] sgd_update
                (scalar_layer 0 0))
  = bias_ (scalar_layer 0 0).
Proof.
  apply (Update_sgd_frozen example_epsilon example_decay [[1]] [[1]]
                           (scalar_layer 0 0)).
  simpl. lra.
Defined.

Lemma clamp_inside g x : - g <= x <= g -> Rmin g (Rmax (- g) x) = x.
Proof.
  intros [Hlo Hhi]. rewrite (Rmax_right _ _ Hlo). now apply Rmin_right.
Qed.

(** X17: clipping leaves a gradient alone that lies within the bound: when
    every element of the momentum-blended gradient is in
    [[-max_grad, max_grad]], the gradient buffers after [Update] hold it
    unchanged. *)
Theorem Update_clipping_inside :
  forall (epsilon rmsprop_decay : BaseFloat) (input diff : CuMatrix)
         (rule : UpdateRule) (l : AffineTransform),
    mat_within (- max_grad_ l) (max_grad_ l)
               (blended_linearity_corr input diff l) ->
    vec_within (- max_grad_ l) (max_grad_ l) (blended_bias_corr diff l) ->
    linearity_corr_ (Update epsilon rmsprop_decay input diff rule l)
    = blended_linearity_corr input diff l /\
    bias_corr_ (Update epsilon rmsprop_decay input diff rule l)
    = blended_bias_corr diff l.
Proof.
  intros epsilon rmsprop_decay input diff rule l HW Hb.
  rewrite Update_linearity_corr, Update_bias_corr.
  unfold clipped_linearity_corr, clipped_bias_corr.
  destruct (Rlt_dec 0 (max_grad_ l)) as [Hpos|_]; [|split; reflexivity].
  assert (Hv : forall v : CuVector,
             vec_within (- max_grad_ l) (max_grad_ l) v ->
             map (Rmin (max_grad_ l)) (map (Rmax (- max_grad_ l)) v) = v).
  { intros v Hin. rewrite map_map. rewrite <- (map_id v) at 2.
    apply map_ext_in. intros x Hx. apply clamp_inside.
    unfold vec_within in Hin. rewrite Forall_forall in Hin. now apply Hin. }
  split.
  - unfold CuMatrixBase.ApplyCeiling, CuMatrixBase.ApplyFloor.
    rewrite map_map.
    rewrite <- (map_id (blended_linearity_corr input diff l)) at 2.
    apply map_ext_in. intros row Hrow. apply Hv.
    unfold mat_within in HW. rewrite Forall_forall in HW. now apply HW.
  - unfold CuVectorBase.ApplyCeiling, CuVectorBase.ApplyFloor. now apply Hv.
Qed.

Lemma Update_clipping_inside_witness :
  linearity_corr_ (Update example_epsilon example_decay [[1]] [[1]]
                          sgd_update (scalar_layer 1 5))
  = blended_linearity_corr [[1]] [[1]] (scalar_layer 1 5) /\
  bias_corr_ (Update example_epsilon example_decay [[1]] [[1]]
                     sgd_update (scalar_layer 1 5))
  = blended_bias_corr [[1]] (scalar_layer 1 5).
Proof.
  apply (Update_clipping_inside example_epsilon example_decay [[1]] [[1]]
                                sgd_update (scalar_layer 1 5)).
  - cbv [mat_within vec_within blended_linearity_corr CuMatrixBase.AddMatMat
         CuMatrixBase.imap2 imap imap_from scalar_layer AffineTransform_ctor
         CuMatrixBase.Zero repeat set_max_grad_ set_learn_rate_coef_
         linearity_corr_ opts_ momentum max_grad_ example_opts
         CuMatrixBase.at_ nth sum_upto seq fold_right CuMatrixBase.op_cols
         CuMatrixBase.op_at CuMatrixBase.NumRows length input_dim_
         output_dim_].
    repeat constructor; lra.
  - cbv [vec_within blended_bias_corr AddRowSumMat imap imap_from
         scalar_layer AffineTransform_ctor CuVectorBase.Zero repeat
         set_max_grad_ set_learn_rate_coef_ bias_corr_ opts_ momentum
         max_grad_ example_opts CuMatrixBase.at_ nth sum_upto seq fold_right
         CuMatrixBase.NumRows length input_dim_ output_dim_].
    repeat constructor; lra.
Defined.

(** X18: reading parameters without accumulator block makes the next
    adaptive [Update] start over: whatever accumulators the layer had, the
    call allocates the buffers again and accumulates from zero.  The
    allocation happens once per layer only as long as [ReadData] is not
    called in between. *)
Theorem ReadData_then_Update_reallocates :
  forall (epsilon rmsprop_decay : BaseFloat) (is_ rest : stream)
         (binary : bool) (input diff : CuMatrix) (rule : UpdateRule)
         (l l1 : AffineTransform),
    is_adaptive rule = true ->
    ReadData is_ binary l = Ok (l1, rest) ->
    adaBuffersInitialized l1 = false ->
    let l2 := Update epsilon rmsprop_decay input diff rule l1 in
    adaBuffersInitialized l2 = true /\
    ada_allocations l2 = S (ada_allocations l) /\
    linearity_corr_accu l2
    = AccuUpdate rmsprop_decay rule
        (CuMatrixBase.Zero (output_dim_ l) (input_dim_ l))
        (linearity_corr_ l2) /\
    bias_corr_accu l2
    = AccuUpdateVec rmsprop_decay rule (CuVectorBase.Zero (output_dim_ l))
        (bias_corr_ l2).
Proof.
  intros epsilon rmsprop_decay is_ rest binary input diff rule l l1
         Hrule Hread Hflag l2. subst l2.
  destruct (ReadData_flag _ _ _ Hread) as [_ Hallocs].
  rewrite Hflag in Hallocs.
  assert (Hdims : input_dim_ l1 = input_dim_ l /\ output_dim_ l1 = output_dim_ l).
  { apply (@apply_operation_dimensions epsilon rmsprop_decay
             (OpReadData is_ binary)).
    cbn [apply_operation]. now rewrite Hread. }
  destruct Hdims as [Hin Hout].
  rewrite Update_flag, Update_allocations, Hrule, Hflag, Hallocs.
  split; [reflexivity|]. split; [reflexivity|].
  destruct (Update_adaptive_buffers epsilon rmsprop_decay input diff rule l1
                                    Hrule) as (Ha & Hb & _).
  cbv zeta in Ha, Hb. rewrite Hflag, Hin, Hout in Ha. rewrite Hflag, Hout in Hb.
  split; [exact Ha | exact Hb].
Qed.

Lemma ReadData_then_Update_reallocates_witness :
  let l := InitAdaBuffers (AffineTransform_ctor 1 1 example_opts) in
  let l1 := set_bias_ [0]
              (set_linearity_ [[0]] (set_adaBuffersInitialized false l)) in
  let l2 := Update example_epsilon example_decay [[1]] [[1]] adagrad_update
                   l1 in
  ada_allocations l = 1%nat /\
  adaBuffersInitialized l2 = true /\
  ada_allocations l2 = 2%nat.
Proof.
  cbv zeta. split; [reflexivity|].
  destruct (@ReadData_then_Update_reallocates
              example_epsilon example_decay
              [MatrixItem [[0]]; VectorItem [0]] [] false [[1]] [[1]]
              adagrad_update
              (InitAdaBuffers (AffineTransform_ctor 1 1 example_opts))
              (set_bias_ [0]
                 (set_linearity_ [[0]]
                    (set_adaBuffersInitialized false
                       (InitAdaBuffers
                          (AffineTransform_ctor 1 1 example_opts)))))
              eq_refl)
    as (Hf & Ha & _).
  - apply ReadData_untagged; reflexivity.
  - reflexivity.
  - split; [exact Hf | exact Ha].
Defined.

(** ** Persistence, continued *)

(** X20: [ReadData] reads a prefix of the stream of two, four, six or nine
    items and returns the rest untouched; what follows the prefix has no
    influence on the layer it leaves, so that layers written one after the
    other are read back one after the other. *)
Theorem ReadData_framing :
  forall (is_ : stream) (binary : bool) (l l' : AffineTransform)
         (rest : stream),
    ReadData is_ binary l = Ok (l', rest) ->
    exists prefix,
      is_ = prefix ++ rest /\
      In (length prefix) [2; 4; 6; 9]%nat /\
      forall rest', ReadData (prefix ++ rest') binary l = Ok (l', rest').
Proof.
  intros is_ binary l l' rest H.
  destruct (ReadData_inv _ _ _ H) as (W & b & (Hrows & Hcols & Hdim) & Hcases).
  cbv zeta in Hcases.
  unfold CuMatrixBase.NumRows, CuVectorBase.Dim in Hrows, Hdim.
  assert (Hrun : forall l0 r,
             input_dim_ l0 = input_dim_ l -> output_dim_ l0 = output_dim_ l ->
             ('(m, is_) <- ReadMatrix (MatrixItem W :: VectorItem b :: r) binary ;;
              let l1 := set_linearity_ m l0 in
              '(v, is_) <- ReadVector is_ binary ;;
              let l1 := set_bias_ v l1 in
              _ <- KALDI_ASSERT (CuMatrixBase.NumRows (linearity_ l1)
                                 =? output_dim_ l1)%nat ;;
              _ <- KALDI_ASSERT (CuMatrixBase.NumCols (linearity_ l1)
                                 =? input_dim_ l1)%nat ;;
              _ <- KALDI_ASSERT (CuVectorBase.Dim (bias_ l1)
                                 =? output_dim_ l1)%nat ;;
              Ok (l1, is_))
             = Ok (set_bias_ b (set_linearity_ W l0), r)).
  { intros l0 r Hin Hout. cbn [ReadMatrix ReadVector bind].
    destruct l0. cbn in Hin, Hout |- *.
    rewrite Hin, Hout, Hrows, Hcols, Hdim, !Nat.eqb_refl. reflexivity. }
  destruct Hcases as [(-> & ->) | [(x & -> & ->) | [(x & y & -> & ->)
                     | (x & y & A & a & -> & ->)]]].
  - exists [MatrixItem W; VectorItem b]. split; [reflexivity|].
    split; [cbn; tauto|]. intros rest'. unfold ReadData.
    cbn [app Peek is_open_angle bind]. apply Hrun; now destruct l.
  - exists [Token "<LearnRateCoef>"; Basic x; MatrixItem W; VectorItem b].
    split; [reflexivity|]. split; [cbn; tauto|]. intros rest'.
    unfold ReadData. cbn [app]. cbn [Peek is_open_angle Ascii.eqb Bool.eqb].
    change (ExpectToken (Token "<LearnRateCoef>" :: ?r) binary
                        "<LearnRateCoef>") with (Ok r).
    cbn [bind ReadBasicType Peek is_open_angle].
    apply Hrun; now destruct l.
  - exists [Token "<LearnRateCoef>"; Basic x; Token "<MaxGrad>"; Basic y;
            MatrixItem W; VectorItem b].
    split; [reflexivity|]. split; [cbn; tauto|]. intros rest'.
    unfold ReadData. cbn [app]. cbn [Peek is_open_angle Ascii.eqb Bool.eqb].
    change (ExpectToken (Token "<LearnRateCoef>" :: ?r) binary
                        "<LearnRateCoef>") with (Ok r).
    cbn [bind ReadBasicType]. cbn [Peek is_open_angle Ascii.eqb Bool.eqb].
    change (ExpectToken (Token "<MaxGrad>" :: ?r) binary "<MaxGrad>")
      with (Ok r).
    cbn [bind ReadBasicType Peek is_open_angle].
    apply Hrun; now destruct l.
  - exists [Token "<LearnRateCoef>"; Basic x; Token "<MaxGrad>"; Basic y;
            Token "<AffineAccus>"; MatrixItem A; VectorItem a;
            MatrixItem W; VectorItem b].
    split; [reflexivity|]. split; [cbn; tauto|]. intros rest'.
    unfold ReadData. cbn [app]. cbn [Peek is_open_angle Ascii.eqb Bool.eqb].
    change (ExpectToken (Token "<LearnRateCoef>" :: ?r) binary
                        "<LearnRateCoef>") with (Ok r).
    cbn [bind ReadBasicType]. cbn [Peek is_open_angle Ascii.eqb Bool.eqb].
    change (ExpectToken (Token "<MaxGrad>" :: ?r) binary "<MaxGrad>")
      with (Ok r).
    cbn [bind ReadBasicType]. cbn [Peek is_open_angle Ascii.eqb Bool.eqb].
    change (ExpectToken (Token "<AffineAccus>" :: ?r) binary "<AffineAccus>")
      with (Ok r).
    cbn [bind ReadMatrix ReadVector].
    change (ReadMatrix (MatrixItem W :: VectorItem b :: rest') binary)
      with (Ok (W, VectorItem b :: rest')) .
    cbn [bind ReadVector].
    destruct l. cbn in Hrows, Hcols, Hdim |- *.
    rewrite Hrows, Hcols, Hdim, !Nat.eqb_refl. reflexivity.
Qed.

Lemma ReadData_framing_witness :
  let l := scalar_layer 1 0 in
  let l' := set_bias_ [0]
              (set_linearity_ [[0]] (set_adaBuffersInitialized false l)) in
  exists prefix,
    [MatrixItem [[0]]; VectorItem [0]; Token "<Next>"]
    = prefix ++ [Token "<Next>"] /\
    In (length prefix) [2; 4; 6; 9]%nat /\
    forall rest', ReadData (prefix ++ rest') false l = Ok (l', rest').
Proof.
  cbv zeta.
  apply (@ReadData_framing
           [MatrixItem [[0]]; VectorItem [0]; Token "<Next>"] false
           (scalar_layer 1 0)).
  apply ReadData_untagged; reflexivity.
Defined.
